(** * nextjs-blog: the HTTP client wrapper, the upload pipeline and the
      response/error normalisation layer

    A shallow embedding of
      - [src/next.config.js] (second document: the axios wrapper with
        [processUrl], [initInterceptor] and the class [Request]),
      - [src/src/app/api/upload/route.ts] and the older single-provider
        upload route kept beside it,
      - [src/src/app/api/data.ts] ([toFrontend], [ApiErrors],
        [successResponse], [errorResponse], [withErrorHandler]),
    followed by the properties the specification states about them.

    Conventions.  A JavaScript string is a [string]: the sequence of bytes
    of its UTF-8 encoding.  On well-formed text [startsWith], [endsWith],
    [includes], [split] on an ASCII separator and concatenation agree with
    their UTF-16 originals, because UTF-8 is self-synchronising.  A value
    that may be [undefined] or [null] is an [option].  Numbers that the
    code only uses as integers are [Z] (or [nat] for the attempt counter).
    What the code obtains from its environment (the clock, the UUID
    generator, the storage provider and the constructor of its client, the
    HTTP server) is an explicit argument.  A call that may throw returns
    an [option], or a sum that carries what was thrown. *)

From Stdlib Require Import ZArith Ascii String Lia.
From stdpp Require Import gmap strings list fin_maps pretty.
From Equations Require Import Equations.

Local Open Scope Z_scope.

(* ===================================================================== *)
(** * Part I: the model *)
(* ===================================================================== *)

(** ** JavaScript string primitives used by the sources *)

Module JsString.

(** [s.startsWith(p)] *)
Definition startsWith (s p : string) : bool := String.prefix p s.

(** [s.substring(n)] *)
Fixpoint substring_from (n : nat) (s : string) : string :=
  match n, s with
  | O, _ => s
  | S _, EmptyString => EmptyString
  | S n', String _ s' => substring_from n' s'
  end.

(** [s.endsWith(suf)]: the last [suf.length] code units of [s] are [suf]. *)
Definition endsWith (s suf : string) : bool :=
  (String.length suf <=? String.length s)%nat
  && String.eqb (substring_from (String.length s - String.length suf) s) suf.

(** [s.includes(sub)]: [sub] occurs at some position of [s]. *)
Fixpoint includes (s sub : string) : bool :=
  startsWith s sub
  || match s with
     | EmptyString => false
     | String _ s' => includes s' sub
     end.

(** [s.split(sep)] for a one-character separator: never empty, and
    [("").split(sep)] is [[""]]. *)
Fixpoint split (sep : ascii) (s : string) : list string :=
  match s with
  | EmptyString => [EmptyString]
  | String c s' =>
      if Ascii.eqb c sep then EmptyString :: split sep s'
      else match split sep s' with
           | h :: t => String c h :: t
           | [] => [String c EmptyString]
           end
  end.

(** [arr.pop()]: the last element, [undefined] on an empty array. *)
Definition pop (l : list string) : option string := last l.

(** [arr.join(sep)]; an [undefined] element is printed as the empty
    string. *)
Fixpoint join (sep : string) (l : list (option string)) : string :=
  match l with
  | [] => ""
  | [x] => default "" x
  | x :: rest => default "" x +:+ sep +:+ join sep rest
  end.

(** How a template literal prints a value that may be [undefined]. *)
Definition template (x : option string) : string := default "undefined" x.

(** Truthiness of a string that may be [undefined]: neither [undefined]
    nor empty. *)
Definition truthy (x : option string) : bool :=
  match x with
  | Some s => negb (String.eqb s "")
  | None => false
  end.

(** [a || b] on such values. *)
Definition or_else (a b : option string) : option string :=
  if truthy a then a else b.

(** [a || b] where [b] is a string literal. *)
Definition or_string (a : option string) (b : string) : string :=
  match a with
  | Some s => if String.eqb s "" then b else s
  | None => b
  end.

(** [s.replace(/\/$/, '')]: one trailing slash removed. *)
Definition strip_trailing_slash (s : string) : string :=
  if endsWith s "/"
  then String.substring 0 (String.length s - 1) s
  else s.

(** Lower-casing restricted to the ASCII letters; it is
    [String.prototype.toLowerCase] on ASCII text. *)
Definition ascii_lower (c : ascii) : ascii :=
  let n := nat_of_ascii c in
  if ((65 <=? n) && (n <=? 90))%nat then ascii_of_nat (n + 32) else c.

Fixpoint ascii_toLowerCase (s : string) : string :=
  match s with
  | EmptyString => EmptyString
  | String c s' => String (ascii_lower c) (ascii_toLowerCase s')
  end.

(** The specification-side reading of the three tests, as existence of a
    decomposition of the string. *)
Definition has_prefix (p s : string) : Prop := ∃ r, s = p +:+ r.
Definition has_suffix (suf s : string) : Prop := ∃ r, s = r +:+ suf.
Definition contains (sub s : string) : Prop := ∃ l r, s = l +:+ sub +:+ r.

End JsString.

(** The part of the JavaScript runtime the sources call and whose full
    definition (Unicode case mapping) lies outside them. *)
Class JsRuntime := {
  toLowerCase : string → string
}.

(** ** The HTTP client wrapper ([next.config.js], second document) *)

Module Http.
Import JsString.

(** [processUrl] *)
Definition processUrl (url : string) : string :=
  if startsWith url "/api/" || startsWith url "http://" || startsWith url "https://"
  then url
  else "/api/" +:+ (if startsWith url "/" then substring_from 1 url else url).

(** [RequestConfig]: the fields of [AxiosRequestConfig] the wrapper
    reads, and the two it adds.  [value] is the type of [params] and of
    request bodies; a cancel token is named by the number of the
    [CancelTokenSource] that issued it. *)
Record RequestConfig (value : Type) := mkConfig {
  url : option string;
  method : option string;
  params : option value;
  data : option value;
  cancelToken : option nat;
  retry : option Z;
  retryDelay : option Z
}.
Arguments mkConfig {value}.
Arguments url {value}.
Arguments method {value}.
Arguments params {value}.
Arguments data {value}.
Arguments cancelToken {value}.
Arguments retry {value}.
Arguments retryDelay {value}.

(** The object [{}], which [{ ...config }] yields for an [undefined]
    [config]. *)
Definition emptyConfig {value} : RequestConfig value :=
  mkConfig None None None None None None None.

(** [JSON.stringify] on the values that occur as params and bodies;
    it yields [undefined] on some of them (functions, symbols). *)
Class Json (value : Type) := {
  JSON_stringify : value → option string
}.

(** The instance of the class [Request]: the map [pendingRequests]
    from request keys to cancel-token sources, the sources already
    cancelled, and the number of the next source
    [axios.CancelToken.source()] creates. *)
Record Request := mkRequest {
  pendingRequests : gmap string nat;
  cancelled : gset nat;
  nextSource : nat
}.

(** [new Request()] *)
Definition newRequest : Request := mkRequest ∅ ∅ 0.

Section Pending.
Context {value : Type} `{Json value}.

(** [generateRequestKey]; [JSON.stringify(undefined)] is
    [undefined]. *)
Definition generateRequestKey (config : RequestConfig value) : string :=
  join "&" [url config; method config;
            params config ≫= JSON_stringify;
            data config ≫= JSON_stringify].

(** [addPendingRequest]: the config is mutated in place, so the
    updated config is returned beside the updated instance. *)
Definition addPendingRequest (this : Request) (config : RequestConfig value)
  : Request * RequestConfig value :=
  let requestKey := generateRequestKey config in
  match cancelToken config with
  | Some _ => (this, config)
  | None =>
      let source := nextSource this in
      (mkRequest (<[requestKey := source]> (pendingRequests this))
                 (cancelled this) (S source),
       mkConfig (url config) (method config) (params config) (data config)
                (Some source) (retry config) (retryDelay config))
  end.

(** [removePendingRequest] *)
Definition removePendingRequest (this : Request) (config : RequestConfig value)
  : Request :=
  let requestKey := generateRequestKey config in
  match pendingRequests this !! requestKey with
  | Some _ => mkRequest (delete requestKey (pendingRequests this))
                        (cancelled this) (nextSource this)
  | None => this
  end.

(** [cancelAllRequests] *)
Definition cancelAllRequests (this : Request) : Request :=
  mkRequest ∅
            (cancelled this ∪ list_to_set (snd <$> map_to_list (pendingRequests this)))
            (nextSource this).

(** [cancelRequest] *)
Definition cancelRequest (this : Request) (config : RequestConfig value)
  : Request :=
  let requestKey := generateRequestKey config in
  match pendingRequests this !! requestKey with
  | Some source => mkRequest (delete requestKey (pendingRequests this))
                             (cancelled this ∪ {[source]}) (nextSource this)
  | None => this
  end.

(** What a call of [get], [post], [put], [delete] or [patch] does
    before the request leaves: it builds [requestConfig], registers it,
    and hands [processUrl(url)], the body and [requestConfig] to the
    axios instance.  The result is the updated instance and that
    triple. *)
Record Dispatch := mkDispatch {
  sentUrl : string;
  sentData : option value;
  sentConfig : RequestConfig value
}.

(** [get]: [requestConfig = { ...config, params }] *)
Definition get (this : Request) (u : string) (ps : option value)
    (config : option (RequestConfig value)) : Request * Dispatch :=
  let c := default emptyConfig config in
  let requestConfig :=
    mkConfig (url c) (method c) ps (data c) (cancelToken c) (retry c) (retryDelay c) in
  let '(this', requestConfig') := addPendingRequest this requestConfig in
  (this', mkDispatch (processUrl u) None requestConfig').

(** [post], [put] and [patch] share one body:
    [requestConfig = { ...config }], the data travels beside it. *)
Definition post (this : Request) (u : string) (d : option value)
    (config : option (RequestConfig value)) : Request * Dispatch :=
  let requestConfig := default emptyConfig config in
  let '(this', requestConfig') := addPendingRequest this requestConfig in
  (this', mkDispatch (processUrl u) d requestConfig').

(** [delete] *)
Definition delete_ (this : Request) (u : string)
    (config : option (RequestConfig value)) : Request * Dispatch :=
  let requestConfig := default emptyConfig config in
  let '(this', requestConfig') := addPendingRequest this requestConfig in
  (this', mkDispatch (processUrl u) None requestConfig').

(** The [.finally(() => this.removePendingRequest(requestConfig))] of
    each of them. *)
Definition settle (this : Request) (d : Dispatch) : Request :=
  removePendingRequest this (sentConfig d).

End Pending.
Arguments Dispatch : clear implicits.

(** *** The response interceptors ([initInterceptor]) *)

(** What the server answers: [res = response.data] with its optional
    [data] and [message] members. *)
Record Res (value : Type) := mkRes {
  res_data : option value;
  res_message : option string
}.
Arguments mkRes {value}.
Arguments res_data {value}.
Arguments res_message {value}.

Record AxiosResponse (value : Type) := mkAxiosResponse {
  status : Z;
  response_data : Res value
}.
Arguments mkAxiosResponse {value}.
Arguments status {value}.
Arguments response_data {value}.

(** An error axios rejects with. *)
Inductive AxiosFailure : Type :=
| Cancel (message : string)        (* [axios.isCancel(error)] *)
| BadStatus (status : Z)           (* [error.response] is set *)
| NoResponse                       (* only [error.request] is set *)
| SetupFailure (message : string). (* neither is set *)

Definition isCancel (e : AxiosFailure) : bool :=
  match e with Cancel _ => true | _ => false end.

(** The outcome of one request on the wire. *)
Inductive Wire (value : Type) : Type :=
| Answered (r : AxiosResponse value)
| Failed (e : AxiosFailure).
Arguments Answered {value}.
Arguments Failed {value}.

(** What the promise returned to the caller settles to. *)
Inductive Settled (value : Type) : Type :=
| ResolvedEnvelope (r : Res value)          (* [return res] *)
| ResolvedWrapped (r : Res value)           (* [{code: 200, data: res, ...}] *)
| ResolvedRaw (r : AxiosResponse value)     (* an untouched axios response *)
| RejectedError (message : string)          (* [new Error(...)] *)
| RejectedAxios (e : AxiosFailure).
Arguments ResolvedEnvelope {value}.
Arguments ResolvedWrapped {value}.
Arguments ResolvedRaw {value}.
Arguments RejectedError {value}.
Arguments RejectedAxios {value}.

(** What the client does that an observer of the network sees. *)
Inductive Event : Type :=
| Send (n : nat)      (* the [n]-th request goes out, counted from 0 *)
| Wait (ms : Z).      (* [setTimeout(..., ms)] *)

Section Interceptor.
Context {value : Type}.
(** The network: the outcome of the [n]-th request sent. *)
Variable wire : nat → Wire value.

(** The fulfilled handler of the response interceptor. *)
Definition onFulfilled (response : AxiosResponse value) : Settled value :=
  let res := response_data response in
  if negb (status response =? 200)
  then RejectedError (or_string (res_message res) "请求失败")
  else match res_data res with
       | Some _ => ResolvedEnvelope res
       | None => ResolvedWrapped res
       end.

(** [axios(config)], the library's default instance: the file
    registers its interceptors on [service] only, so the outcome of
    the request is passed on as it is. *)
Definition axios (n : nat) (config : RequestConfig value) : list Event * Settled value :=
  ([Send n],
   match wire n with
   | Answered r => ResolvedRaw r
   | Failed e => RejectedAxios e
   end).

(** The rejected handler of the response interceptor, for the error
    of request number [n] whose [error.config] is [config].  It
    returns the events that follow, the settlement, and [config] as
    the handler leaves it ([config.retry--] mutates it). *)
Definition onRejected (n : nat) (error : AxiosFailure)
    (config : option (RequestConfig value))
  : list Event * Settled value * option (RequestConfig value) :=
  if isCancel error then ([], RejectedAxios error, config)
  else
    match config with
    | Some c =>
        match retry c with
        | Some r =>
            if (negb (r =? 0)) && (0 <? r)
            then
              let c' := mkConfig (url c) (method c) (params c) (data c)
                                 (cancelToken c) (Some (r - 1)) (retryDelay c) in
              let retryDelay :=
                match retryDelay c with
                | Some d => if d =? 0 then 1000 else d
                | None => 1000
                end in
              let '(events, result) := axios (S n) c' in
              (Wait retryDelay :: events, result, Some c')
            else ([], RejectedAxios error, config)
        | None => ([], RejectedAxios error, config)
        end
    | None => ([], RejectedAxios error, config)
    end.

(** A request through [service] (what [this.service.get] and its
    siblings run): request number 0 goes out and its outcome passes
    through the response interceptor. *)
Definition service (config : RequestConfig value)
  : list Event * Settled value * option (RequestConfig value) :=
  match wire 0%nat with
  | Answered r => ([Send 0%nat], onFulfilled r, Some config)
  | Failed e =>
      let '(events, result, c') := onRejected 0%nat e (Some config) in
      (Send 0%nat :: events, result, c')
  end.

(** The number of requests of a trace, and its retries: the requests
    after the first. *)
End Interceptor.

(** The number of requests of a trace, and its retries: the requests
    after the first. *)
Fixpoint sends (t : list Event) : nat :=
  match t with
  | [] => 0
  | Send _ :: t' => S (sends t')
  | Wait _ :: t' => sends t'
  end.

Definition retries (t : list Event) : nat := pred (sends t).

(** Every source the instance holds, pending or cancelled, is one it
    issued: its number lies below [nextSource]. *)
Definition issued (this : Request) : Prop :=
  (∀ k s, pendingRequests this !! k = Some s → (s < nextSource this)%nat)
  ∧ (∀ s, s ∈ cancelled this → (s < nextSource this)%nat).

End Http.

(** ** The upload route ([src/app/api/upload/route.ts]) *)

(** A value a [catch] clause may receive: an [Error] with its message,
    [null] or [undefined] (of which no member can be read), or anything
    else (whose [message] member is [undefined]). *)
Inductive Thrown : Type :=
| JsError (message : string)
| NonError
| Nullish.

(** The result of a computation that may throw, or of a promise that may
    reject. *)
Inductive Result (A : Type) : Type :=
| Ok (a : A)
| Throw (e : Thrown).
Arguments Ok {A}.
Arguments Throw {A}.

Module Upload.
Import JsString.

(** [process.env] *)
Abbreviation Env := (gmap string string).

(** The uploaded [File]: its name and MIME type (the content only
    travels to the provider). *)
Record File := mkFile {
  name : string;
  type : string
}.

(** The fields of the multipart form: [formData.get] yields [null]
    for a missing field. *)
Record FormData := mkFormData {
  file : option File;
  directory : option string
}.

(** The JSON bodies the route answers with, and [NextResponse.json]. *)
Inductive Body : Type :=
| UrlBody (url : string)        (* [{ url }] *)
| ErrorBody (error : string).   (* [{ error }] *)

Record Response := mkResponse {
  status : Z;
  body : Body
}.

Definition json (b : Body) (status : option Z) : Response :=
  mkResponse (default 200 status) b.

(** [getOSSConfig] *)
Record OSSConfig := mkOSSConfig {
  region : option string;
  accessKeyId : option string;
  accessKeySecret : option string;
  bucket : option string
}.

Definition getOSSConfig (env : Env) : OSSConfig :=
  mkOSSConfig
    (or_else (env !! "OSS_REGION") (env !! "NEXT_PUBLIC_OSS_REGION"))
    (or_else (env !! "OSS_ACCESS_KEY_ID") (env !! "NEXT_PUBLIC_OSS_ACCESS_KEY_ID"))
    (or_else (env !! "OSS_ACCESS_KEY_SECRET") (env !! "NEXT_PUBLIC_OSS_ACCESS_KEY_SECRET"))
    (or_else (env !! "OSS_BUCKET") (env !! "NEXT_PUBLIC_OSS_BUCKET")).

(** [getQiniuConfig] *)
Record QiniuConfig := mkQiniuConfig {
  accessKey : option string;
  secretKey : option string;
  qbucket : option string;
  domain : option string
}.

Definition getQiniuConfig (env : Env) : QiniuConfig :=
  mkQiniuConfig (env !! "QINIU_ACCESS_KEY") (env !! "QINIU_SECRET_KEY")
                (env !! "QINIU_BUCKET") (env !! "QINIU_DOMAIN").

(** [Object.entries(config)], in the order the object literal lists
    its keys. *)
Definition entries (config : OSSConfig) : list (string * option string) :=
  [("region", region config); ("accessKeyId", accessKeyId config);
   ("accessKeySecret", accessKeySecret config); ("bucket", bucket config)].

(** What [new OSS(options)] does with the options it is given: ali-oss
    checks them (the names of the bucket and of the region among them)
    and throws when it refuses them; [None] is a client. *)
Abbreviation OSSConstructor := (OSSConfig → option Thrown).

(** [createOSSClient]: the client itself carries nothing the route
    reads back, so success is [Ok ()]. *)
Definition createOSSClient (env : Env) (newOSS : OSSConstructor) : Result unit :=
  let config := getOSSConfig env in
  let missingEnvVars :=
    (λ kv, fst kv) <$> List.filter (λ kv, negb (truthy (snd kv))) (entries config) in
  if (0 <? length missingEnvVars)%nat
  then Throw (JsError ("Alibaba OSS not configured. Missing environment variables: "
                       +:+ join ", " (Some <$> missingEnvVars) +:+ "."))
  else match newOSS config with
       | Some e => Throw e
       | None => Ok ()
       end.

(** [getQiniuToken]: the token is opaque to the route. *)
Definition getQiniuToken (env : Env) : Result unit :=
  let config := getQiniuConfig env in
  if negb (truthy (accessKey config)) || negb (truthy (secretKey config))
     || negb (truthy (qbucket config))
  then Throw (JsError "Qiniu OSS not configured. Missing AccessKey, SecretKey or Bucket.")
  else Ok ().

(** [STORAGE_PROVIDER] *)
Definition STORAGE_PROVIDER (env : Env) : string :=
  or_string (env !! "STORAGE_PROVIDER") "aliyun".

(** [RETRY_CONFIG] *)
Definition maxRetries : nat := 3.
Definition initialDelay : Z := 1000.
Definition maxDelay : Z := 5000.

(** The argument of [delay] in both upload functions:
    [Math.min(initialDelay * Math.pow(2, attempt - 1), maxDelay)].
    [Math.pow(2, -1)] is 0.5, so attempt 0 (which no caller passes) would
    wait 500 ms; from attempt 1 on the power is an integer. *)
Definition backoff (attempt : nat) : Z :=
  Z.min (match attempt with
         | O => 500
         | S n => initialDelay * 2 ^ Z.of_nat n
         end) maxDelay.

(** An upload yields the delays it waited, in order, and the outcome of
    its promise. *)
Abbreviation Upload := (list Z * Result string)%type.

Definition after_delay (ms : Z) (u : Upload) : Upload := (ms :: fst u, snd u).

(** The public URL of an object stored at Alibaba OSS: the template
    [https://${config.bucket}.${config.region}.aliyuncs.com/${filename}]
    over [getOSSConfig()]. *)
Definition aliyunUrl (env : Env) (filename : string) : string :=
  let config := getOSSConfig env in
  "https://" +:+ template (bucket config) +:+ "." +:+ template (region config)
  +:+ ".aliyuncs.com/" +:+ filename.

(** The public URL of an object stored at Qiniu:
    [${domain}/${filename}] with
    [domain = config.domain?.replace(/\/$/, '')]. *)
Definition qiniuUrl (env : Env) (filename : string) : string :=
  let domain := strip_trailing_slash <$> domain (getQiniuConfig env) in
  template domain +:+ "/" +:+ filename.

(** [new Error(`Qiniu upload failed with status ${statusCode}`)] *)
Definition qiniuStatusError (statusCode : Z) : Thrown :=
  JsError ("Qiniu upload failed with status " +:+ pretty statusCode).

(** What [client.put] does on the attempt of a given number: it returns
    ([None]) or throws. *)
Abbreviation AliyunPut := (nat → option Thrown).

(** [uploadToAliyun] *)
Equations? uploadToAliyun (env : Env) (put : AliyunPut) (filename : string)
    (attempt : nat) : Upload by wf (maxRetries - attempt)%nat lt :=
  uploadToAliyun env put filename attempt with put attempt := {
    | None => ([], Ok (aliyunUrl env filename))
    | Some err with le_lt_dec maxRetries attempt := {
        | left _ => ([], Throw err)
        | right _ =>
            after_delay (backoff attempt)
                        (uploadToAliyun env put filename (attempt + 1)%nat) } }.
Proof. lia. Qed.

(** What the callback of [formUploader.put] receives on the attempt of
    a given number: a [respErr] that passes the test [if (respErr)], or a
    response with its status code. *)
Inductive QiniuCallback : Type :=
| RespErr (respErr : Thrown)
| RespInfo (statusCode : Z).

Abbreviation QiniuPut := (nat → QiniuCallback).

(** [uploadToQiniu] *)
Equations? uploadToQiniu (env : Env) (put : QiniuPut) (filename : string)
    (attempt : nat) : Upload by wf (maxRetries - attempt)%nat lt :=
  uploadToQiniu env put filename attempt with getQiniuToken env := {
    | Throw e => ([], Throw e)
    | Ok _ with put attempt := {
        | RespErr respErr with lt_dec attempt maxRetries := {
            | left _ =>
                after_delay (backoff attempt)
                            (uploadToQiniu env put filename (attempt + 1)%nat)
            | right _ => ([], Throw respErr) }
        | RespInfo statusCode =>
            if statusCode =? 200
            then ([], Ok (qiniuUrl env filename))
            else ([], Throw (qiniuStatusError statusCode)) } }.
Proof. lia. Qed.

(** What the route takes from outside: the UUID [uuidv4()] returns, the
    constructor of the Alibaba OSS client and the behaviour of the two
    providers. *)
Record World := mkWorld {
  uuidv4 : string;
  newOSS : OSSConstructor;
  aliyun : AliyunPut;
  qiniu : QiniuPut
}.

(** [allowedTypes] and [isAllowedType] *)
Definition allowedTypes : list string :=
  ["text/markdown"; "text/plain"; "image/"; "video/"].

Definition isAllowedType (f : File) : bool :=
  existsb (λ t, startsWith (type f) t || endsWith (name f) ".md") allowedTypes.

(** [file.name.split(".").pop()?.toLowerCase()] *)
Definition extension `{JsRuntime} (f : File) : option string :=
  toLowerCase <$> pop (split "." (name f)).

(** [basePath] *)
Definition basePath (f : File) : string :=
  if startsWith (type f) "image/" then "images"
  else if startsWith (type f) "video/" then "videos"
  else "articles".

(** The storage key, [filename] in the source. *)
Definition storageKey (f : File) (directory uuid ext : string) : string :=
  basePath f +:+ "/" +:+ directory +:+ "/" +:+ uuid +:+ "." +:+ ext.

(** How a call of [POST] ends: the delays the handler waited, and its
    response, or [None] when the handler itself throws and answers
    nothing. *)
Abbreviation Answer := (list Z * option Response)%type.

(** The [catch] clause of [POST].  Reading [error.message] of [null] or
    [undefined] throws a TypeError out of the clause. *)
Definition onError (delays : list Z) (error : Thrown) : Answer :=
  (delays,
   match error with
   | Nullish => None
   | JsError m => Some (json (ErrorBody (or_string (Some m) "Upload failed")) (Some 500))
   | NonError => Some (json (ErrorBody (or_string None "Upload failed")) (Some 500))
   end).

(** Lines 160-168 of [POST]: the upload proper, under the [try]. *)
Definition store (env : Env) (w : World) (filename : string) : Answer :=
  let run (u : Upload) :=
    match snd u with
    | Ok url => (fst u, Some (json (UrlBody url) None))
    | Throw e => onError (fst u) e
    end in
  if String.eqb (STORAGE_PROVIDER env) "qiniu"
  then run (uploadToQiniu env (qiniu w) filename 1)
  else match createOSSClient env (newOSS w) with
       | Throw e => onError [] e
       | Ok _ => run (uploadToAliyun env (aliyun w) filename 1)
       end.

(** Lines 146-168 of [POST]: what the handler does with a file that
    passed the type check. *)
Definition storeAccepted `{JsRuntime} (env : Env) (w : World) (file : File)
    (directory : string) : Answer :=
  let extension := extension file in
  if negb (truthy extension)
  then ([], Some (json (ErrorBody "Invalid file extension") (Some 400)))
  else
    let filename := storageKey file directory (uuidv4 w) (default "" extension) in
    store env w filename.

(** [POST], from the parsed form data on. *)
Definition POST `{JsRuntime} (env : Env) (w : World) (formData : FormData) : Answer :=
  let directory := or_string (directory formData) "articles" in
  match file formData with
  | None => ([], Some (json (ErrorBody "No file provided") (Some 400)))
  | Some file =>
      if negb (isAllowedType file)
      then ([], Some (json (ErrorBody "Only markdown, image and video files are allowed")
                           (Some 400)))
      else storeAccepted env w file directory
  end.



End Upload.

(** ** The older upload route (one provider, the client created first) *)

Module OssUpload.
Import JsString.
Import Upload.

(** [createOSSClient] of this file: the same check with another
    message, before the same constructor. *)
Definition createOSSClient (env : Env) (newOSS : OSSConstructor) : Result unit :=
  let config := getOSSConfig env in
  let missingEnvVars :=
    (λ kv, fst kv) <$> List.filter (λ kv, negb (truthy (snd kv))) (entries config) in
  if (0 <? length missingEnvVars)%nat
  then Throw (JsError ("OSS not configured. Missing environment variables: "
                       +:+ join ", " (Some <$> missingEnvVars)
                       +:+ ". Please configure OSS settings in .env.local"))
  else match newOSS config with
       | Some e => Throw e
       | None => Ok ()
       end.

(** [uploadWithRetry]: it resolves to the provider's
    [PutObjectResult], which the route does not read. *)
Equations? uploadWithRetry (put : nat → option Thrown) (filename : string)
    (attempt : nat) : list Z * Result unit by wf (maxRetries - attempt)%nat lt :=
  uploadWithRetry put filename attempt with put attempt := {
    | None => ([], Ok ())
    | Some err with le_lt_dec maxRetries attempt := {
        | left _ => ([], Throw err)
        | right _ =>
            let delayTime := backoff attempt in
            let r := uploadWithRetry put filename (attempt + 1)%nat in
            (delayTime :: fst r, snd r) } }.
Proof. lia. Qed.

(** Lines 105-132 of [POST]: what the handler does with a file that
    passed the type check. *)
Definition storeAccepted `{JsRuntime} (env : Env) (w : World) (file : File)
    (directory : string) : Answer :=
  let extension := extension file in
  if negb (truthy extension)
  then ([], Some (json (ErrorBody "Invalid file extension") (Some 400)))
  else
    let filename := storageKey file directory (uuidv4 w) (default "" extension) in
    let r := uploadWithRetry (aliyun w) filename 1 in
    match snd r with
    | Throw e => onError (fst r) e
    | Ok _ =>
        let url := aliyunUrl env filename in
        (fst r, Some (json (UrlBody url) None))
    end.

(** [POST] *)
Definition POST `{JsRuntime} (env : Env) (w : World) (formData : FormData) : Answer :=
  match createOSSClient env (newOSS w) with
  | Throw e => onError [] e
  | Ok _ =>
      let directory := or_string (directory formData) "articles" in
      match file formData with
      | None => ([], Some (json (ErrorBody "No file provided") (Some 400)))
      | Some file =>
          if negb (isAllowedType file)
          then ([], Some (json (ErrorBody "Only markdown, image and video files are allowed")
                               (Some 400)))
          else storeAccepted env w file directory
      end
  end.

End OssUpload.

(** ** Response and error normalisation ([src/app/api/data.ts]) *)

Module Api.
Import JsString.

(** What the conversions need of the values stored in a document:
    [toString()], the test for [null] and [undefined], and the
    injection of strings. *)
Class MongoValue (value : Type) := {
  toString : value → string;
  nullish : value → bool;
  ofString : string → value
}.

(** A document: a finite map from field names to values.  [null] and
    [undefined] documents are [None]. *)
Abbreviation Document value := (gmap string value).

Section Conversion.
Context {value : Type} `{MongoValue value}.

(** [_id?.toString() || ''] *)
Definition idString (_id : option value) : string :=
  or_string (match _id with
             | Some v => if nullish v then None else Some (toString v)
             | None => None
             end) "".

(** [toFrontend] *)
Definition toFrontend (doc : option (Document value)) : option (Document value) :=
  match doc with
  | None => None
  | Some doc =>
      let _id := doc !! "_id" in
      let rest := delete "_id" doc in
      Some (<["_id" := ofString (idString _id)]> rest)
  end.

(** [toMongo] *)
Definition toMongo (data : option (Document value)) : option (Document value) :=
  match data with
  | None => None
  | Some data => Some (delete "_id" data)
  end.

(** [toFrontendList] *)
Definition toFrontendList (docs : option (list (option (Document value))))
  : list (option (Document value)) :=
  match docs with
  | None => []
  | Some docs => (λ doc, toFrontend doc) <$> docs
  end.

End Conversion.

(** [ApiError]; the constructor defaults [code] and [statusCode] to
    500. *)
Record ApiError := mkApiError {
  message : string;
  code : Z;
  statusCode : Z
}.

Definition newApiError (message : string) (code statusCode : option Z) : ApiError :=
  mkApiError message (default 500 code) (default 500 statusCode).

(** The members of [ApiErrors]. *)
Inductive ApiErrorKind : Type :=
| BAD_REQUEST | VALIDATION_ERROR | MISSING_PARAMS
| UNAUTHORIZED | TOKEN_EXPIRED | INVALID_TOKEN
| FORBIDDEN | INSUFFICIENT_PERMISSIONS
| NOT_FOUND | USER_NOT_FOUND | ARTICLE_NOT_FOUND
| CONFLICT | DUPLICATE_ENTRY
| RATE_LIMIT
| INTERNAL_ERROR | DATABASE_ERROR | EXTERNAL_API_ERROR.

(** [ApiErrors.K(message)]; a missing argument takes the default
    message. *)
Definition ApiErrors (k : ApiErrorKind) (message : option string) : ApiError :=
  match k with
  | BAD_REQUEST => newApiError (default "请求参数错误" message) (Some 400) (Some 400)
  | VALIDATION_ERROR => newApiError (default "数据验证失败" message) (Some 400) (Some 400)
  | MISSING_PARAMS => newApiError (default "缺少必要参数" message) (Some 400) (Some 400)
  | UNAUTHORIZED => newApiError (default "未授权访问" message) (Some 401) (Some 401)
  | TOKEN_EXPIRED => newApiError (default "令牌已过期" message) (Some 401) (Some 401)
  | INVALID_TOKEN => newApiError (default "无效的令牌" message) (Some 401) (Some 401)
  | FORBIDDEN => newApiError (default "禁止访问" message) (Some 403) (Some 403)
  | INSUFFICIENT_PERMISSIONS => newApiError (default "权限不足" message) (Some 403) (Some 403)
  | NOT_FOUND => newApiError (default "资源不存在" message) (Some 404) (Some 404)
  | USER_NOT_FOUND => newApiError (default "用户不存在" message) (Some 404) (Some 404)
  | ARTICLE_NOT_FOUND => newApiError (default "文章不存在" message) (Some 404) (Some 404)
  | CONFLICT => newApiError (default "资源冲突" message) (Some 409) (Some 409)
  | DUPLICATE_ENTRY => newApiError (default "数据已存在" message) (Some 409) (Some 409)
  | RATE_LIMIT => newApiError (default "请求过于频繁" message) (Some 429) (Some 429)
  | INTERNAL_ERROR => newApiError (default "服务器内部错误" message) (Some 500) (Some 500)
  | DATABASE_ERROR => newApiError (default "数据库连接错误" message) (Some 500) (Some 500)
  | EXTERNAL_API_ERROR => newApiError (default "外部API调用失败" message) (Some 500) (Some 500)
  end.

(** [ApiResponse<T>], the envelope. *)
Record ApiResponse (T : Type) := mkApiResponse {
  env_code : Z;
  success : bool;
  env_message : string;
  env_data : option T;
  error : option string;
  timestamp : option Z
}.
Arguments mkApiResponse {T}.
Arguments env_code {T}.
Arguments success {T}.
Arguments env_message {T}.
Arguments env_data {T}.
Arguments error {T}.
Arguments timestamp {T}.

(** [NextResponse<ApiResponse<T>>]: the HTTP status and the JSON
    body. *)
Record NextResponse (T : Type) := mkNextResponse {
  status : Z;
  body : ApiResponse T
}.
Arguments mkNextResponse {T}.
Arguments status {T}.
Arguments body {T}.

(** The status of the response [NextResponse.json] makes for the
    [status] member of its init, or [None] when it throws.  The member is
    converted to an [unsigned short] (Web IDL: an integer is reduced
    modulo 2^16); the [Response] constructor then throws a RangeError for
    a status outside 200..599 and, the body being JSON text, a TypeError
    for a null-body status (204, 205 and 304 in that range). *)
Definition responseStatus (status : Z) : option Z :=
  let status := status mod 65536 in
  if (status <? 200) || (599 <? status) then None
  else if (status =? 204) || (status =? 205) || (status =? 304) then None
  else Some status.

(** [NextResponse.json(response, { status })]: the response, or [None]
    when the call throws. *)
Definition json {T} (response : ApiResponse T) (status : Z) : option (NextResponse T) :=
  (λ status, mkNextResponse status response) <$> responseStatus status.

(** [successResponse]; [now] is [Date.now()]. *)
Definition successResponse {T} (now : Z) (data : option T)
    (message : option string) (code : option Z) : option (NextResponse T) :=
  let message := default "操作成功" message in
  let code := default 200 code in
  let response := mkApiResponse code true message data None (Some now) in
  json response 200.

(** The first argument of [errorResponse]:
    [string | Error | ApiError]. *)
Inductive ErrorArg : Type :=
| OfApiError (e : ApiError)
| OfError (message : string)
| OfString (s : string).

(** [code || statusCode] *)
Definition code_or (code : option Z) (statusCode : Z) : Z :=
  match code with
  | Some c => if c =? 0 then statusCode else c
  | None => statusCode
  end.

(** [errorResponse]: it throws ([None]) when [NextResponse.json]
    does. *)
Definition errorResponse {T} (now : Z) (error : ErrorArg)
    (statusCode : option Z) (code : option Z) : option (NextResponse T) :=
  let statusCode := default 500 statusCode in
  let '(message, finalCode, finalStatusCode) :=
    match error with
    | OfApiError e => (Api.message e, Api.code e, Api.statusCode e)
    | OfError m => (m, code_or code statusCode, statusCode)
    | OfString s => (s, code_or code statusCode, statusCode)
    end in
  let response :=
    mkApiResponse finalCode false "操作失败" None (Some message) (Some now) in
  json response finalStatusCode.


(** The HTTP status [errorResponse] passes to [NextResponse.json]. *)
Definition finalStatusCode (error : ErrorArg) (statusCode : option Z) : Z :=
  match error with
  | OfApiError e => Api.statusCode e
  | OfError _ | OfString _ => default 500 statusCode
  end.


(** What a handler may throw: an [ApiError], another [Error], or a value
    that is no [Error]. *)
Inductive Throwable : Type :=
| ThrownApiError (e : ApiError)
| ThrownError (message : string)
| ThrownOther.

(** How a call of the wrapped handler ends. *)
Inductive Outcome (T : Type) : Type :=
| Returned (r : NextResponse T)
| Threw (e : Throwable).
Arguments Returned {T}.
Arguments Threw {T}.

(** The [catch] clause of [withErrorHandler]; what [errorResponse]
    throws there is thrown by the wrapper ([None]). *)
Definition onThrown {T} (now : Z) (error : Throwable) : option (NextResponse T) :=
  match error with
  | ThrownApiError e => errorResponse now (OfApiError e) None None
  | ThrownError m =>
      if includes m "not found" || includes m "不存在"
      then errorResponse now (OfError m) (Some 404) None
      else if includes m "unauthorized" || includes m "未授权"
      then errorResponse now (OfError m) (Some 401) None
      else if includes m "forbidden" || includes m "禁止"
      then errorResponse now (OfError m) (Some 403) None
      else if includes m "validation" || includes m "验证"
      then errorResponse now (OfError m) (Some 400) None
      else errorResponse now (OfError m) (Some 500) None
  | ThrownOther => errorResponse now (OfString "未知错误") (Some 500) None
  end.

(** [withErrorHandler(handler)] applied to a request on which
    [handler] ends with [outcome].  [convert] stands for the [try]
    branch (lines 189-214: the document conversion of the returned
    body), which the properties below do not concern. *)
Definition withErrorHandler {T} (convert : NextResponse T → NextResponse T)
    (now : Z) (outcome : Outcome T) : option (NextResponse T) :=
  match outcome with
  | Returned response => Some (convert response)
  | Threw error => onThrown now error
  end.

(** [paginatedResponse]: the body carries the items beside the
    pagination record. *)
Definition paginatedResponse {T P} (now : Z) (data : list T) (pagination : P)
    (message : option string) : option (NextResponse (list T * P)) :=
  successResponse now (Some (data, pagination)) (Some (default "获取成功" message)) None.

(** The values of [params[field]] that [validateRequiredParams] tells
    apart: [null], a string, anything else.  A field the object lacks
    reads as [undefined], here [None]; the object is taken to have own
    properties only. *)
Inductive Param : Type :=
| ParamNull
| ParamString (s : string)
| ParamOther.

(** [params[field] === undefined || params[field] === null ||
    params[field] === ''] *)
Definition isMissing (p : option Param) : bool :=
  match p with
  | None => true
  | Some ParamNull => true
  | Some (ParamString s) => String.eqb s ""
  | Some ParamOther => false
  end.

(** [validateRequiredParams]: [None] when it returns, the [ApiError]
    it throws otherwise. *)
Definition validateRequiredParams (params : gmap string Param)
    (requiredFields : list string) : option ApiError :=
  let missingFields := List.filter (λ field, isMissing (params !! field)) requiredFields in
  if (0 <? length missingFields)%nat
  then Some (ApiErrors MISSING_PARAMS
               (Some ("缺少必要参数: " +:+ join ", " (Some <$> missingFields))))
  else None.

(** [\d] and [[3-9]]: ASCII digits only. *)
Definition isDigit (c : ascii) : bool :=
  ((48 <=? nat_of_ascii c) && (nat_of_ascii c <=? 57))%nat.

Definition isDigit3to9 (c : ascii) : bool :=
  ((51 <=? nat_of_ascii c) && (nat_of_ascii c <=? 57))%nat.

Fixpoint allDigits (s : string) : bool :=
  match s with
  | EmptyString => true
  | String c s' => isDigit c && allDigits s'
  end.

(** [validatePhone]: the whole string matches [/^1[3-9]\d{9}$/]. *)
Definition validatePhone (phone : string) : bool :=
  match phone with
  | String c1 (String c2 rest) =>
      Ascii.eqb c1 "1" && isDigit3to9 c2
      && (String.length rest =? 9)%nat && allDigits rest
  | _ => false
  end.

(** The number a string of decimal digits writes, read from the left
    after the digits read so far. *)
Fixpoint decimalFrom (acc : Z) (s : string) : Z :=
  match s with
  | EmptyString => acc
  | String c s' => decimalFrom (10 * acc + (Z.of_nat (nat_of_ascii c) - 48)) s'
  end.

Definition decimal (s : string) : Z := decimalFrom 0 s.

(** What [Math.ceil(total / limit)] can be: an integer, an infinity or
    [NaN]. *)
Inductive JsNumber : Type :=
| Finite (z : Z)
| PosInfinity
| NegInfinity
| NaN.

(** [Math.ceil(total / limit)] on integers (exact below 2^53): division
    by zero gives an infinity, and [0 / 0] gives [NaN]. *)
Definition ceilQuotient (total limit : Z) : JsNumber :=
  if limit =? 0
  then if total =? 0 then NaN
       else if 0 <? total then PosInfinity else NegInfinity
  else Finite (- ((- total) / limit)).

(** [page < totalPages]: every comparison with [NaN] is false. *)
Definition lessThan (page : Z) (n : JsNumber) : bool :=
  match n with
  | Finite z => page <? z
  | PosInfinity => true
  | NegInfinity => false
  | NaN => false
  end.

(** [createPagination] *)
Record Pagination := mkPagination {
  page : Z;
  limit : Z;
  total : Z;
  totalPages : JsNumber;
  hasMore : bool
}.

Definition createPagination (page limit total : Z) : Pagination :=
  let totalPages := ceilQuotient total limit in
  let hasMore := lessThan page totalPages in
  mkPagination page limit total totalPages hasMore.

End Api.

(** ** The proxy for stored content ([src/app/api/proxy-content/route.ts]) *)

Module ProxyContent.
Import JsString.

(** [ALLOWED_DOMAINS]: the literal list with
    [process.env.QINIU_DOMAIN_HOSTNAME] at its end, passed through
    [.filter(Boolean)]. *)
Definition ALLOWED_DOMAINS (env : gmap string string) : list string :=
  omap (λ d : option string, if truthy d then d else None)
       [Some "next-blog.oss-cn-beijing.aliyuncs.com"; Some "qiniudn.com";
        Some "qbox.me"; Some "clouddn.com"; env !! "QINIU_DOMAIN_HOSTNAME"].

(** [isAllowedDomain] for the host name of the parsed URL. *)
Definition isAllowedDomain (env : gmap string string) (hostname : string) : bool :=
  existsb (λ domain, includes hostname domain) (ALLOWED_DOMAINS env).

(** [ProxyContentResponse] *)
Record ProxyContentResponse := mkProxyContent {
  content : string;
  contentType : string
}.

(** What [fetch] resolves to, as far as the handler reads it. *)
Record Fetched := mkFetched {
  ok : bool;
  status : Z;
  statusText : string;
  text : string;
  header_content_type : option string
}.

(** What the request to [urlString] comes to: a response, or a
    rejection (no connection, the 30 s timeout, a body that cannot be
    read). *)
Inductive Upstream : Type :=
| Resolved (response : Fetched)
| Rejected (e : Api.Throwable).

(** The handler from line 31 on, for a [url] parameter that passed
    [validateRequired].  [hostname] is [new URL(urlString).hostname], or
    [None] when the constructor throws.  The result tells whether the
    request to [urlString] was made, and how the handler ends; it is
    [None] where a response constructor throws. *)
Definition handler (env : gmap string string) (now : Z) (hostname : option string)
    (upstream : Upstream) : bool * option (Api.Outcome ProxyContentResponse) :=
  match hostname with
  | None =>
      (false, Api.Returned <$>
                Api.errorResponse now
                  (Api.OfApiError (Api.ApiErrors Api.BAD_REQUEST (Some "无效的URL格式")))
                  None None)
  | Some hostname =>
      if negb (isAllowedDomain env hostname)
      then (false, Api.Returned <$>
                     Api.errorResponse now
                       (Api.OfApiError (Api.ApiErrors Api.FORBIDDEN (Some "不允许的域名")))
                       None None)
      else
        match upstream with
        | Rejected e => (true, Some (Api.Threw e))
        | Resolved response =>
            if negb (ok response)
            then (true, Api.Returned <$>
                          Api.errorResponse now
                            (Api.OfApiError
                               (Api.ApiErrors Api.EXTERNAL_API_ERROR
                                  (Some ("获取文件失败: " +:+ pretty (status response)
                                         +:+ " " +:+ statusText response))))
                            None None)
            else
              let content := text response in
              let contentType :=
                or_string (header_content_type response) "text/plain" in
              (true, Api.Returned <$>
                       Api.successResponse now
                         (Some (mkProxyContent content contentType)) None None)
        end
  end.

End ProxyContent.

(** ** The friends page (third document of [next.config.js]) *)

Module Friends.
Import JsString.

(** [isOssUrl], by its truthiness (every use negates it).
    [publicDomain] is [process.env.NEXT_PUBLIC_QINIU_DOMAIN]. *)
Definition isOssUrl (publicDomain : option string) (url : string) : bool :=
  includes url ".aliyuncs.com/"
  || includes url "qiniudn.com/"
  || includes url "qbox.me/"
  || includes url "clouddn.com/"
  || (truthy publicDomain && includes url (default "" publicDomain)).

(** What [fetch("/api/upload")] resolves to: [response.ok] and the
    [url] member of the JSON body. *)
Record UploadReply := mkUploadReply {
  ok : bool;
  url : option string
}.

(** The reply a browser makes of a response of the upload route:
    [ok] for a status from 200 to 299. *)
Definition replyOf (r : Upload.Response) : UploadReply :=
  mkUploadReply ((200 <=? Upload.status r) && (Upload.status r <=? 299))
                (match Upload.body r with
                 | Upload.UrlBody u => Some u
                 | Upload.ErrorBody _ => None
                 end).

(** The reply to a call of the upload route: when the handler throws
    instead of answering, the framework answers with status 500. *)
Definition answerOf (r : option Upload.Response) : UploadReply :=
  match r with
  | Some r => replyOf r
  | None => mkUploadReply false None
  end.

(** The form [uploadImage] sends. *)
Definition uploadForm (file : Upload.File) : Upload.FormData :=
  Upload.mkFormData (Some file) (Some "friendsAvatar").

(** [uploadImage], given what the request resolves to or rejects
    with. *)
Definition uploadImage (response : Result UploadReply) : Result string :=
  match response with
  | Throw e => Throw e
  | Ok response =>
      if negb (ok response) then Throw (JsError "Failed to upload image")
      else if negb (truthy (url response))
      then Throw (JsError "No URL returned from upload")
      else Ok (default "" (url response))
  end.

(** Lines 582-585 of [uploadImageFromUrl]: the name of the file made
    of the downloaded blob. *)
Definition fileExt (imageUrl : string) : string :=
  let urlParts := split "/" imageUrl in
  let fileName := default "" (last urlParts) in
  or_string (pop (split "." fileName)) "jpg".

Definition avatarFile (imageUrl blobType : string) : Upload.File :=
  Upload.mkFile ("avatar." +:+ fileExt imageUrl) blobType.

(** [uploadImageFromUrl]: [download] is what the request to the image
    proxy resolves to ([response.ok] and the type of the blob) or rejects
    with, [upload] what the upload request for a file does. *)
Definition uploadImageFromUrl (imageUrl : string) (download : Result (bool * string))
    (upload : Upload.File → Result UploadReply) : Result string :=
  let attempt : Result string :=
    match download with
    | Throw e => Throw e
    | Ok (ok, blobType) =>
        if negb ok then Throw (JsError "Failed to download image")
        else uploadImage (upload (avatarFile imageUrl blobType))
    end in
  match attempt with
  | Ok u => Ok u
  | Throw _ => Throw (JsError "Failed to transfer image to OSS")
  end.

(** What becomes of the avatar when a friend is saved. *)
Inductive AvatarStep : Type :=
| UploadSelected (file : Upload.File)   (* [uploadImage(file)] *)
| Transfer (avatarUrl : string)         (* [uploadImageFromUrl(avatarUrl)] *)
| Keep (avatarUrl : string).

(** Lines 679-685 of [handleAddFriend]. *)
Definition addAvatarStep (publicDomain : option string)
    (selectedFile : option Upload.File) (avatar : string) : AvatarStep :=
  match selectedFile with
  | Some file => UploadSelected file
  | None =>
      if negb (String.eqb avatar "") && negb (isOssUrl publicDomain avatar)
      then Transfer avatar
      else Keep avatar
  end.

(** Lines 759-769 of [handleEditFriendSave]. *)
Definition editAvatarStep (publicDomain : option string)
    (editingFile : option Upload.File) (avatar : string) (isApproved : bool)
  : AvatarStep :=
  match editingFile with
  | Some file => UploadSelected file
  | None =>
      if negb (String.eqb avatar "") && negb (isOssUrl publicDomain avatar) && isApproved
      then Transfer avatar
      else Keep avatar
  end.

End Friends.

(** ** The database connection module (the second unnamed file) *)

Module Mongo.
Import JsString.

(** What outlives a load of the module: [global._mongoClientPromise]
    (a promise is named by the number of the client it connects) and the
    URIs of the clients made so far, oldest first. *)
Record Process := mkProcess {
  _mongoClientPromise : option nat;
  clients : list string
}.

Definition freshProcess : Process := mkProcess None [].

(** What [new MongoClient(uri, options)] does with the URI: the driver
    parses it and throws when it is malformed; [None] is a client. *)
Abbreviation ClientConstructor := (string → option Thrown).

(** How one evaluation of the module ends: it exports [clientPromise],
    it throws its own error, or the constructor of the client throws. *)
Inductive Loaded : Type :=
| Exports (p : Process) (clientPromise : nat)
| Throws (e : Thrown)
| ConstructorThrows (e : Thrown).

(** One evaluation of the module. *)
Definition load (env : gmap string string) (newClient : ClientConstructor)
    (p : Process) : Loaded :=
  if negb (truthy (env !! "MONGODB_URI"))
  then Throws (JsError "Please add your MongoDB URI to .env.local")
  else
    let uri := or_string (env !! "MONGODB_URI") "mongodb://localhost:27017/nextjs-blog" in
    if String.eqb (default "" (env !! "NODE_ENV")) "development"
    then
      match _mongoClientPromise p with
      | None =>
          match newClient uri with
          | Some e => ConstructorThrows e
          | None =>
              let client := length (clients p) in
              Exports (mkProcess (Some client) (clients p ++ [uri])) client
          end
      | Some promise => Exports p promise
      end
    else
      match newClient uri with
      | Some e => ConstructorThrows e
      | None =>
          let client := length (clients p) in
          Exports (mkProcess (_mongoClientPromise p) (clients p ++ [uri])) client
      end.

(** The module evaluated [n] times over (hot reloads): the process
    afterwards and the promises exported, or the first error. *)
Fixpoint reload (env : gmap string string) (newClient : ClientConstructor)
    (n : nat) (p : Process) : Result (Process * list nat) :=
  match n with
  | O => Ok (p, [])
  | S n' =>
      match load env newClient p with
      | Throws e | ConstructorThrows e => Throw e
      | Exports p' promise =>
          match reload env newClient n' p' with
          | Throw e => Throw e
          | Ok (p'', promises) => Ok (p'', promise :: promises)
          end
      end
  end.

(** [checkConnection]: [ping] is what awaiting the client and its
    [ping] command comes to. *)
Definition checkConnection (ping : Result unit) : bool :=
  match ping with
  | Ok _ => true
  | Throw _ => false
  end.

End Mongo.

(** ** Sample inputs *)

Module Samples.
Import Upload.

(** A complete Alibaba OSS configuration. *)
Definition ossEnv : Env :=
  <["OSS_REGION" := "oss-cn-hangzhou"]>
    (<["OSS_ACCESS_KEY_ID" := "id"]>
       (<["OSS_ACCESS_KEY_SECRET" := "secret"]>
          (<["OSS_BUCKET" := "blog"]> ∅))).

(** A complete Qiniu configuration that selects Qiniu. *)
Definition qiniuEnv : Env :=
  <["STORAGE_PROVIDER" := "qiniu"]>
    (<["QINIU_ACCESS_KEY" := "ak"]>
       (<["QINIU_SECRET_KEY" := "sk"]>
          (<["QINIU_BUCKET" := "blog"]>
             (<["QINIU_DOMAIN" := "https://cdn.example.com/"]> ∅)))).

(** [client.put] throws on attempt 1 and returns from attempt 2 on. *)
Definition throwsOnce (attempt : nat) : option Thrown :=
  match attempt with
  | 1%nat => Some (JsError "ConnectionTimeoutError")
  | _ => None
  end.

(** Both providers storing at the first attempt, a constructor that
    accepts its options, and a fixed UUID. *)
Definition calmWorld : World :=
  mkWorld "123e4567-e89b-42d3-a456-426614174000"
          (λ _, None) (λ _, None) (λ _, RespInfo 200).

(** The runtime restricted to ASCII text. *)
Definition asciiRuntime : JsRuntime := {| toLowerCase := JsString.ascii_toLowerCase |}.

(** Values of a stored document: an [ObjectId] (by its hexadecimal
    text), a string, an integer, or [null]. *)
Inductive BsonValue : Type :=
| ObjectId (hex : string)
| Str (s : string)
| Num (n : Z)
| Null.

Definition bson : Api.MongoValue BsonValue :=
  {| Api.toString := λ v, match v with
                          | ObjectId hex => hex
                          | Str s => s
                          | Num n => pretty n
                          | Null => "null"
                          end;
     Api.nullish := λ v, match v with Null => true | _ => false end;
     Api.ofString := Str |}.

(** The document [{ _id: ObjectId("65f0c0ffee"), name: "Ann" }]. *)
Definition ann : gmap string BsonValue :=
  <["_id" := ObjectId "65f0c0ffee"]> (<["name" := Str "Ann"]> ∅).

(** Params and bodies given by their JSON text. *)
Definition jsonText : Http.Json string := {| Http.JSON_stringify := Some |}.

(** A network on which every request fails without a response. *)
Definition deadWire : nat → Http.Wire string := λ _, Http.Failed Http.NoResponse.

(** The config [{ retry: 2 }]. *)
Definition retryTwice : Http.RequestConfig string :=
  Http.mkConfig None None None None None (Some 2) None.

(** Qiniu answers attempt 1 with status 503 and every later attempt
    with status 200. *)
Definition busyOnce (attempt : nat) : QiniuCallback :=
  match attempt with
  | 1%nat => RespInfo 503
  | _ => RespInfo 200
  end.

End Samples.

(* ===================================================================== *)
(** * Part II: properties *)
(* ===================================================================== *)

(** ** Facts about the string primitives *)

Section StringFacts.
Import JsString.

Lemma startsWith_has_prefix (s p : string) :
  startsWith s p = true ↔ has_prefix p s.
Proof.
  unfold startsWith, has_prefix. revert s.
  induction p as [|c p IH]; intros s.
  - destruct s; simpl; split; eauto.
  - destruct s as [|d s]; simpl.
    + split; [discriminate | intros [r Hr]; discriminate].
    + destruct (ascii_dec c d) as [->|Hne].
      * rewrite IH. split; intros [r Hr]; exists r.
        -- by rewrite Hr.
        -- by injection Hr.
      * split; [discriminate | intros [r Hr]; injection Hr; congruence].
Qed.

Lemma app_cons (c : ascii) (s t : string) : String c s +:+ t = String c (s +:+ t).
Proof. reflexivity. Qed.

Lemma app_empty_l (s : string) : "" +:+ s = s.
Proof. reflexivity. Qed.

Lemma app_empty_r (s : string) : s +:+ "" = s.
Proof. induction s as [|c s IH]; [done | by rewrite app_cons, IH]. Qed.

Lemma app_assoc_string (a b c : string) : (a +:+ b) +:+ c = a +:+ b +:+ c.
Proof. induction a as [|x a IH]; [done | by rewrite !app_cons, IH]. Qed.

Lemma length_app_string (a b : string) :
  String.length (a +:+ b) = (String.length a + String.length b)%nat.
Proof. induction a as [|x a IH]; [done | rewrite app_cons; simpl; by rewrite IH]. Qed.

(** [substring_from] cuts a string in two. *)
Lemma substring_from_split (n : nat) (s : string) :
  (n ≤ String.length s)%nat →
  ∃ r, s = r +:+ substring_from n s ∧ String.length r = n.
Proof.
  revert s. induction n as [|n IH]; intros s Hn.
  - exists "". by destruct s.
  - destruct s as [|c s]; simpl in Hn; [lia|].
    destruct (IH s) as (r & Hr & Hlen); [lia|].
    exists (String c r). simpl. rewrite app_cons. split; congruence.
Qed.

Lemma substring_from_app (r s : string) :
  substring_from (String.length r) (r +:+ s) = s.
Proof. induction r as [|c r IH]; [by destruct s | by rewrite app_cons]. Qed.

Lemma endsWith_has_suffix (s suf : string) :
  endsWith s suf = true ↔ has_suffix suf s.
Proof.
  unfold endsWith, has_suffix. rewrite andb_true_iff, Nat.leb_le, String.eqb_eq.
  split.
  - intros [Hlen Heq].
    destruct (substring_from_split (String.length s - String.length suf) s)
      as (r & Hr & _); [lia|].
    exists r. by rewrite Heq in Hr.
  - intros [r ->]. rewrite length_app_string. split; [lia|].
    replace (String.length r + String.length suf - String.length suf)%nat
      with (String.length r) by lia.
    apply substring_from_app.
Qed.

Lemma includes_empty (sub : string) : includes "" sub = startsWith "" sub.
Proof. cbn [includes]. apply orb_false_r. Qed.

Lemma includes_cons (c : ascii) (s sub : string) :
  includes (String c s) sub = startsWith (String c s) sub || includes s sub.
Proof. reflexivity. Qed.

Lemma includes_contains (s sub : string) :
  includes s sub = true ↔ contains sub s.
Proof.
  unfold contains. split.
  - induction s as [|c s IH].
    + rewrite includes_empty. intros Hp.
      apply startsWith_has_prefix in Hp as [r ->]. by exists "", r.
    + rewrite includes_cons, orb_true_iff. intros [Hp|Hi].
      * apply startsWith_has_prefix in Hp as [r Hr]. by exists "", r.
      * destruct (IH Hi) as (l & r & ->). by exists (String c l), r.
  - intros (l & r & ->). induction l as [|c l IH].
    + rewrite app_empty_l.
      assert (startsWith (sub +:+ r) sub = true) as Hp
        by (apply startsWith_has_prefix; by exists r).
      destruct (sub +:+ r) as [|c t].
      * by rewrite includes_empty.
      * by rewrite includes_cons, Hp.
    + rewrite app_cons, includes_cons, IH. apply orb_true_r.
Qed.

(** [split] never yields the empty array, so [pop] after it never
    yields [undefined]. *)
Lemma split_nonempty (sep : ascii) (s : string) : split sep s ≠ [].
Proof.
  induction s as [|c s IH]; simpl; [done|].
  destruct (Ascii.eqb c sep); [done|]. by destruct (split sep s).
Qed.

(** Without the separator in it, a string is its own only piece. *)
Lemma split_no_sep (sep : ascii) (s : string) :
  (∀ l r, s ≠ l +:+ String sep r) → split sep s = [s].
Proof.
  induction s as [|c s IH]; intros Hno; simpl; [done|].
  destruct (Ascii.eqb c sep) eqn:Hc.
  - apply Ascii.eqb_eq in Hc as ->. by destruct (Hno "" s).
  - rewrite IH; [done|]. intros l r ->. by apply (Hno (String c l) r).
Qed.

End StringFacts.

(** ** The HTTP client wrapper: [processUrl] *)

Section ProcessUrl.
Import JsString Http.

Lemma processUrl_rooted (u : string) :
  startsWith u "/api/" || startsWith u "http://" || startsWith u "https://" = true →
  processUrl u = u.
Proof. unfold processUrl. by intros ->. Qed.

Lemma processUrl_relative (u : string) :
  startsWith u "/api/" || startsWith u "http://" || startsWith u "https://" = false →
  processUrl u = "/api/" +:+ (if startsWith u "/" then substring_from 1 u else u).
Proof. unfold processUrl. by intros ->. Qed.

Lemma rooted_iff (u : string) :
  startsWith u "/api/" || startsWith u "http://" || startsWith u "https://" = true
  ↔ has_prefix "/api/" u ∨ has_prefix "http://" u ∨ has_prefix "https://" u.
Proof. rewrite !orb_true_iff, !startsWith_has_prefix. tauto. Qed.

Lemma processUrl_output_rooted (u : string) :
  startsWith (processUrl u) "/api/" || startsWith (processUrl u) "http://"
  || startsWith (processUrl u) "https://" = true.
Proof.
  destruct (startsWith u "/api/" || startsWith u "http://" || startsWith u "https://")
    eqn:Hr.
  - by rewrite (processUrl_rooted u Hr).
  - rewrite (processUrl_relative u Hr).
    assert (startsWith ("/api/" +:+ (if startsWith u "/" then substring_from 1 u else u))
                       "/api/" = true) as ->; [|done].
    apply startsWith_has_prefix. by eexists.
Qed.

(** C7.  [processUrl] returns unchanged every URL that starts with
    [/api/], [http://] or [https://]; every other URL [u] becomes
    [/api/] followed by [u] without one leading slash (by [u] itself when
    it has none); [processUrl] is idempotent, and each of its results
    starts with [/api/], [http://] or [https://]. *)
Theorem C7_processUrl :
  (∀ u, has_prefix "/api/" u ∨ has_prefix "http://" u ∨ has_prefix "https://" u →
        processUrl u = u)
  ∧ (∀ u, ¬ (has_prefix "/api/" u ∨ has_prefix "http://" u ∨ has_prefix "https://" u) →
          (∀ r, u = "/" +:+ r → processUrl u = "/api/" +:+ r)
          ∧ (¬ has_prefix "/" u → processUrl u = "/api/" +:+ u))
  ∧ (∀ u, processUrl (processUrl u) = processUrl u)
  ∧ (∀ u, has_prefix "/api/" (processUrl u) ∨ has_prefix "http://" (processUrl u)
          ∨ has_prefix "https://" (processUrl u)).
Proof.
  split; [|split; [|split]].
  - intros u Hu. by apply processUrl_rooted, rooted_iff.
  - intros u Hu.
    assert (startsWith u "/api/" || startsWith u "http://" || startsWith u "https://"
            = false) as Hr.
    { apply not_true_is_false. by rewrite rooted_iff. }
    rewrite (processUrl_relative u Hr). split.
    + intros r ->. by destruct r.
    + intros Hs. destruct (startsWith u "/") eqn:Hp; [|done].
      by apply startsWith_has_prefix in Hp.
  - intros u. apply processUrl_rooted, processUrl_output_rooted.
  - intros u. apply rooted_iff, processUrl_output_rooted.
Qed.

(** The theorem at ["/friends"], a relative URL with a leading slash. *)
Lemma C7_processUrl_witness :
  processUrl "/friends" = "/api/friends"
  ∧ processUrl "/api/friends" = "/api/friends".
Proof.
  destruct C7_processUrl as (Hrooted & Hrel & _ & _). split.
  - refine (proj1 (Hrel "/friends" _) "friends" eq_refl).
    rewrite <- rooted_iff. vm_compute. discriminate.
  - apply Hrooted. left. by exists "friends".
Defined.

End ProcessUrl.

(** ** The upload pipeline: retry and back-off *)

Section UploadRetry.
Import JsString Upload OssUpload.

Lemma backoff_formula (n : nat) :
  (1 ≤ n)%nat → backoff n = Z.min (1000 * 2 ^ (Z.of_nat n - 1)) 5000.
Proof.
  intros Hn. destruct n as [|n]; [lia|]. unfold backoff, initialDelay, maxDelay.
  by replace (Z.of_nat (S n) - 1) with (Z.of_nat n) by lia.
Qed.

(** From attempt 3 on the cap of 5000 ms would apply; the two delays an
    upload can wait stay below it. *)
Lemma backoff_capped (n : nat) : (3 < n)%nat → backoff n = 5000.
Proof.
  intros Hn. destruct n as [|n]; [lia|]. unfold backoff, initialDelay, maxDelay.
  assert (2 ^ 3 ≤ 2 ^ Z.of_nat n) by (apply Z.pow_le_mono_r; lia). lia.
Qed.

(** The three ways one attempt of [uploadToAliyun] ends. *)
Lemma uploadToAliyun_success env put filename attempt :
  put attempt = None →
  uploadToAliyun env put filename attempt = ([], Ok (aliyunUrl env filename)).
Proof. intros Hp. rewrite uploadToAliyun_equation_1, Hp. reflexivity. Qed.

Lemma uploadToAliyun_give_up env put filename attempt err :
  put attempt = Some err → (maxRetries ≤ attempt)%nat →
  uploadToAliyun env put filename attempt = ([], Throw err).
Proof.
  intros Hp Hle. rewrite uploadToAliyun_equation_1, Hp.
  cbn [uploadToAliyun_unfold_clause_1].
  destruct (le_lt_dec maxRetries attempt); [done | lia].
Qed.

Lemma uploadToAliyun_again env put filename attempt err :
  put attempt = Some err → (attempt < maxRetries)%nat →
  uploadToAliyun env put filename attempt
  = after_delay (backoff attempt) (uploadToAliyun env put filename (attempt + 1)).
Proof.
  intros Hp Hlt. rewrite uploadToAliyun_equation_1, Hp.
  cbn [uploadToAliyun_unfold_clause_1].
  destruct (le_lt_dec maxRetries attempt); [lia | done].
Qed.

(** From attempt [a] on, with every attempt before [k] failing, the
    upload reaches attempt [k] having waited [backoff a], ...,
    [backoff (k - 1)]. *)
Lemma uploadToAliyun_reaches env put filename (k a : nat) :
  (a ≤ k ≤ maxRetries)%nat →
  (∀ i, (a ≤ i < k)%nat → put i ≠ None) →
  uploadToAliyun env put filename a
  = ((backoff <$> seq a (k - a)) ++ fst (uploadToAliyun env put filename k),
     snd (uploadToAliyun env put filename k)).
Proof.
  remember (k - a)%nat as d eqn:Hd. revert a Hd.
  induction d as [|d IH]; intros a Hd Hak Hfail.
  - assert (a = k) as -> by lia. simpl. by destruct (uploadToAliyun _ _ _ k).
  - destruct (put a) as [err|] eqn:Hp; [|by destruct (Hfail a); [lia|]].
    rewrite (uploadToAliyun_again _ _ _ _ err Hp) by lia.
    rewrite (IH (a + 1)%nat) by (try lia; intros; apply Hfail; lia).
    unfold after_delay. simpl. by replace (a + 1)%nat with (S a) by lia.
Qed.

(** [uploadWithRetry] of the older route behaves alike. *)
Lemma uploadWithRetry_success put filename attempt :
  put attempt = None → uploadWithRetry put filename attempt = ([], Ok ()).
Proof. intros Hp. rewrite uploadWithRetry_equation_1, Hp. reflexivity. Qed.

Lemma uploadWithRetry_give_up put filename attempt err :
  put attempt = Some err → (maxRetries ≤ attempt)%nat →
  uploadWithRetry put filename attempt = ([], Throw err).
Proof.
  intros Hp Hle. rewrite uploadWithRetry_equation_1, Hp.
  cbn [uploadWithRetry_unfold_clause_1].
  destruct (le_lt_dec maxRetries attempt); [done | lia].
Qed.

Lemma uploadWithRetry_again put filename attempt err :
  put attempt = Some err → (attempt < maxRetries)%nat →
  uploadWithRetry put filename attempt
  = (backoff attempt :: fst (uploadWithRetry put filename (attempt + 1)),
     snd (uploadWithRetry put filename (attempt + 1))).
Proof.
  intros Hp Hlt. rewrite uploadWithRetry_equation_1, Hp.
  cbn [uploadWithRetry_unfold_clause_1].
  destruct (le_lt_dec maxRetries attempt); [lia | done].
Qed.

Lemma uploadWithRetry_reaches put filename (k a : nat) :
  (a ≤ k ≤ maxRetries)%nat →
  (∀ i, (a ≤ i < k)%nat → put i ≠ None) →
  uploadWithRetry put filename a
  = ((backoff <$> seq a (k - a)) ++ fst (uploadWithRetry put filename k),
     snd (uploadWithRetry put filename k)).
Proof.
  remember (k - a)%nat as d eqn:Hd. revert a Hd.
  induction d as [|d IH]; intros a Hd Hak Hfail.
  - assert (a = k) as -> by lia. simpl. by destruct (uploadWithRetry _ _ k).
  - destruct (put a) as [err|] eqn:Hp; [|by destruct (Hfail a); [lia|]].
    rewrite (uploadWithRetry_again _ _ _ err Hp) by lia.
    rewrite (IH (a + 1)%nat) by (try lia; intros; apply Hfail; lia).
    simpl. by replace (a + 1)%nat with (S a) by lia.
Qed.

(** The ways one attempt of [uploadToQiniu] ends once the token could
    be made. *)
Section Qiniu.
Variable env : Env.
Hypothesis configured : getQiniuToken env = Ok ().

Lemma uploadToQiniu_status put filename attempt statusCode :
  put attempt = RespInfo statusCode →
  uploadToQiniu env put filename attempt
  = if statusCode =? 200 then ([], Ok (qiniuUrl env filename))
    else ([], Throw (qiniuStatusError statusCode)).
Proof.
  intros Hp. rewrite uploadToQiniu_equation_1, configured.
  cbn [uploadToQiniu_unfold_clause_1]. by rewrite Hp.
Qed.

Lemma uploadToQiniu_give_up put filename attempt respErr :
  put attempt = RespErr respErr → (maxRetries ≤ attempt)%nat →
  uploadToQiniu env put filename attempt = ([], Throw respErr).
Proof.
  intros Hp Hle. rewrite uploadToQiniu_equation_1, configured.
  cbn [uploadToQiniu_unfold_clause_1]. rewrite Hp.
  cbn [uploadToQiniu_unfold_clause_1_clause_2].
  destruct (lt_dec attempt maxRetries); [lia | done].
Qed.

Lemma uploadToQiniu_again put filename attempt respErr :
  put attempt = RespErr respErr → (attempt < maxRetries)%nat →
  uploadToQiniu env put filename attempt
  = after_delay (backoff attempt) (uploadToQiniu env put filename (attempt + 1)).
Proof.
  intros Hp Hlt. rewrite uploadToQiniu_equation_1, configured.
  cbn [uploadToQiniu_unfold_clause_1]. rewrite Hp.
  cbn [uploadToQiniu_unfold_clause_1_clause_2].
  destruct (lt_dec attempt maxRetries); [done | lia].
Qed.

Lemma uploadToQiniu_reaches put filename (k a : nat) :
  (a ≤ k ≤ maxRetries)%nat →
  (∀ i, (a ≤ i < k)%nat → ∃ respErr, put i = RespErr respErr) →
  uploadToQiniu env put filename a
  = ((backoff <$> seq a (k - a)) ++ fst (uploadToQiniu env put filename k),
     snd (uploadToQiniu env put filename k)).
Proof.
  remember (k - a)%nat as d eqn:Hd. revert a Hd.
  induction d as [|d IH]; intros a Hd Hak Hfail.
  - assert (a = k) as -> by lia. simpl. by destruct (uploadToQiniu _ _ _ k).
  - destruct (Hfail a) as [respErr Hp]; [lia|].
    rewrite (uploadToQiniu_again _ _ _ respErr Hp) by lia.
    rewrite (IH (a + 1)%nat) by (try lia; intros; apply Hfail; lia).
    unfold after_delay. simpl. by replace (a + 1)%nat with (S a) by lia.
Qed.

End Qiniu.

(** Without the token nothing is sent at all. *)
Lemma uploadToQiniu_unconfigured env put filename attempt e :
  getQiniuToken env = Throw e →
  uploadToQiniu env put filename attempt = ([], Throw e).
Proof. intros Ht. by rewrite uploadToQiniu_equation_1, Ht. Qed.

(** C1, as the code has it.  The upload starts at attempt 1 and makes
    at most [maxRetries = 3] attempts; before attempt [n + 1] it waits
    [backoff n = min (1000 * 2 ^ (n - 1), 5000)] milliseconds.
    - Alibaba OSS ([uploadToAliyun], and [uploadWithRetry] of the older
      route): every attempt on which [client.put] throws is a failure
      that is retried.  When attempt [k <= 3] is the first to succeed
      the upload resolves to the public URL (to the put result in the
      older route); when the three attempts fail it rejects with the
      error of the third.
    - Qiniu ([uploadToQiniu], the token being available): only an
      attempt that ends with [respErr] is retried.  When the attempts
      before [k <= 3] end with [respErr] and attempt [k] is answered
      with status 200 the upload resolves to the public URL; when three
      attempts end with [respErr] it rejects with the third; and when
      attempt [k] is answered with another status it rejects at once
      with the error naming that status, making no further attempt. *)
Theorem C1_upload_retry (env : Env) (filename : string) :
  (∀ (put : nat → option Thrown) (k : nat),
      (1 ≤ k ≤ maxRetries)%nat →
      (∀ i, (1 ≤ i < k)%nat → put i ≠ None) →
      (put k = None →
         uploadToAliyun env put filename 1
         = (backoff <$> seq 1 (k - 1), Ok (aliyunUrl env filename))
         ∧ uploadWithRetry put filename 1 = (backoff <$> seq 1 (k - 1), Ok ()))
      ∧ (∀ err, k = maxRetries → put k = Some err →
         uploadToAliyun env put filename 1 = (backoff <$> seq 1 (k - 1), Throw err)
         ∧ uploadWithRetry put filename 1 = (backoff <$> seq 1 (k - 1), Throw err)))
  ∧ (getQiniuToken env = Ok () →
     ∀ (put : nat → QiniuCallback) (k : nat),
      (1 ≤ k ≤ maxRetries)%nat →
      (∀ i, (1 ≤ i < k)%nat → ∃ respErr, put i = RespErr respErr) →
      (put k = RespInfo 200 →
         uploadToQiniu env put filename 1
         = (backoff <$> seq 1 (k - 1), Ok (qiniuUrl env filename)))
      ∧ (∀ respErr, k = maxRetries → put k = RespErr respErr →
         uploadToQiniu env put filename 1
         = (backoff <$> seq 1 (k - 1), Throw respErr))
      ∧ (∀ statusCode, statusCode ≠ 200 → put k = RespInfo statusCode →
         uploadToQiniu env put filename 1
         = (backoff <$> seq 1 (k - 1), Throw (qiniuStatusError statusCode))))
  ∧ (∀ n : nat, (1 ≤ n)%nat → backoff n = Z.min (1000 * 2 ^ (Z.of_nat n - 1)) 5000)
  ∧ backoff <$> seq 1 (maxRetries - 1) = [1000; 2000].
Proof.
  split; [|split; [|split; [|done]]].
  - intros put k Hk Hfail. split.
    + intros Hp.
      rewrite (uploadToAliyun_reaches env put filename k 1 Hk Hfail).
      rewrite (uploadWithRetry_reaches put filename k 1 Hk Hfail).
      rewrite (uploadToAliyun_success _ _ _ _ Hp), (uploadWithRetry_success _ _ _ Hp).
      simpl. by rewrite app_nil_r.
    + intros err -> Hp.
      rewrite (uploadToAliyun_reaches env put filename maxRetries 1 Hk Hfail).
      rewrite (uploadWithRetry_reaches put filename maxRetries 1 Hk Hfail).
      rewrite (uploadToAliyun_give_up _ _ _ _ err Hp) by lia.
      rewrite (uploadWithRetry_give_up _ _ _ err Hp) by lia.
      done.
  - intros Hconf put k Hk Hfail.
    rewrite (uploadToQiniu_reaches env Hconf put filename k 1 Hk Hfail).
    split; [|split].
    + intros Hp. rewrite (uploadToQiniu_status env Hconf _ _ _ _ Hp).
      simpl. by rewrite app_nil_r.
    + intros respErr -> Hp.
      rewrite (uploadToQiniu_give_up env Hconf _ _ _ respErr Hp) by lia. done.
    + intros statusCode Hne Hp. rewrite (uploadToQiniu_status env Hconf _ _ _ _ Hp).
      destruct (statusCode =? 200) eqn:Heq; [lia|]. simpl. by rewrite app_nil_r.
  - apply backoff_formula.
Qed.

(** The theorem at work: Alibaba OSS throwing once, and Qiniu ending
    attempt 1 with [respErr] (a provider the theorem's Qiniu part
    covers). *)
Lemma C1_upload_retry_witness :
  uploadToAliyun Samples.ossEnv Samples.throwsOnce "images/articles/u.png" 1
  = ([1000], Ok "https://blog.oss-cn-hangzhou.aliyuncs.com/images/articles/u.png")
  ∧ uploadToQiniu Samples.qiniuEnv
      (λ n, match n with 1%nat => RespErr NonError | _ => RespInfo 200 end)
      "images/articles/u.png" 1
    = ([1000], Ok "https://cdn.example.com/images/articles/u.png").
Proof.
  split.
  - destruct (C1_upload_retry Samples.ossEnv "images/articles/u.png") as (Haliyun & _).
    destruct (Haliyun Samples.throwsOnce 2%nat) as (Hok & _).
    + unfold maxRetries. lia.
    + intros i Hi. assert (i = 1%nat) as -> by lia. discriminate.
    + exact (proj1 (Hok eq_refl)).
  - destruct (C1_upload_retry Samples.qiniuEnv "images/articles/u.png")
      as (_ & Hqiniu & _).
    refine (proj1 (Hqiniu eq_refl _ 2%nat _ _) eq_refl).
    + unfold maxRetries. lia.
    + intros i Hi. assert (i = 1%nat) as -> by lia. by eexists.
Defined.

(** C1 as stated fails for Qiniu: with attempt 1 answered by status
    503 and attempt 2 answered by status 200, an attempt within the limit
    succeeds, yet the upload waits for nothing and rejects with the
    error of attempt 1 instead of resolving to the URL. *)
Lemma C1_counterexample :
  getQiniuToken Samples.qiniuEnv = Ok ()
  ∧ Samples.busyOnce 1 = RespInfo 503
  ∧ Samples.busyOnce 2 = RespInfo 200
  ∧ (2 ≤ maxRetries)%nat
  ∧ uploadToQiniu Samples.qiniuEnv Samples.busyOnce "images/articles/u.png" 1
    = ([], Throw (JsError "Qiniu upload failed with status 503"))
  ∧ snd (uploadToQiniu Samples.qiniuEnv Samples.busyOnce "images/articles/u.png" 1)
    ≠ Ok (qiniuUrl Samples.qiniuEnv "images/articles/u.png").
Proof.
  assert (getQiniuToken Samples.qiniuEnv = Ok ()) as Hconf by reflexivity.
  rewrite (uploadToQiniu_status _ Hconf Samples.busyOnce _ 1 503 eq_refl).
  repeat split; try done. unfold maxRetries. lia.
Qed.

End UploadRetry.

(** ** The upload pipeline: the type check and the storage key *)

Section UploadChecks.
Import JsString Upload.
Context `{JsRuntime}.


(** [store] answers 200 with a URL or 500 with an error, when it
    answers. *)
Lemma store_status env w filename r :
  snd (store env w filename) = Some r → status r = 200 ∨ status r = 500.
Proof.
  unfold store, onError.
  destruct (String.eqb _ _).
  - destruct (snd (uploadToQiniu _ _ _ _)) as [|[]]; cbn; intros [= <-]; auto.
  - destruct (Upload.createOSSClient env _) as [|[]]; cbn; try (intros [= <-]; auto).
    destruct (snd (uploadToAliyun _ _ _ _)) as [|[]]; cbn; intros [= <-]; auto.
Qed.



(** The key of a file that passed both checks. *)
Lemma storeAccepted_key env w f directory ext :
  extension f = Some ext → ext ≠ "" →
  storeAccepted env w f directory
  = store env w (basePath f +:+ "/" +:+ directory +:+ "/" +:+ uuidv4 w +:+ "." +:+ ext).
Proof.
  intros He Hne. unfold storeAccepted. rewrite He. cbn [truthy default].
  destruct (String.eqb_spec ext ""); [done|]. reflexivity.
Qed.


(** Only a name whose last piece lower-cases to the empty string is
    turned away for its extension. *)
Lemma storeAccepted_invalid_extension env w f directory :
  extension f = Some "" →
  storeAccepted env w f directory
  = ([], Some (json (ErrorBody "Invalid file extension") (Some 400))).
Proof. intros He. unfold storeAccepted. by rewrite He. Qed.


(** A name without a dot is its own only piece, so the whole name,
    lower-cased, is taken for the extension. *)
Lemma extension_without_dot (f : File) :
  (∀ l r, name f ≠ l +:+ String "." r) →
  extension f = Some (toLowerCase (name f)).
Proof. intros Hno. unfold extension. by rewrite (split_no_sep "." _ Hno). Qed.

End UploadChecks.



(** C8 at a file without an extension.  The plain-text file [README] is
    not turned away with status 400: its whole name, lower-cased, serves as
    the extension, and the file is stored under
    [articles/articles/<uuid>.readme]. *)
Theorem C8_file_without_extension_is_stored :
  Upload.extension (H := Samples.asciiRuntime) (Upload.mkFile "README" "text/plain")
  = Some "readme"
  ∧ Upload.POST (H := Samples.asciiRuntime) Samples.ossEnv Samples.calmWorld
      (Upload.mkFormData (Some (Upload.mkFile "README" "text/plain")) None)
    = ([], Some (Upload.mkResponse 200
                   (Upload.UrlBody
                      "https://blog.oss-cn-hangzhou.aliyuncs.com/articles/articles/123e4567-e89b-42d3-a456-426614174000.readme"))).
Proof.
  split; [reflexivity|].
  unfold Upload.POST. cbn [Upload.file Upload.directory JsString.or_string].
  assert (Upload.isAllowedType (Upload.mkFile "README" "text/plain") = true) as ->
    by reflexivity.
  cbn [negb].
  rewrite (storeAccepted_key (H := Samples.asciiRuntime) _ _ _ _ "readme")
    by (reflexivity || discriminate).
  unfold Upload.store.
  assert (String.eqb (Upload.STORAGE_PROVIDER Samples.ossEnv) "qiniu" = false) as ->
    by reflexivity.
  assert (Upload.createOSSClient Samples.ossEnv (Upload.newOSS Samples.calmWorld) = Ok ())
    as -> by reflexivity.
  rewrite uploadToAliyun_success by reflexivity.
  reflexivity.
Qed.


(** ** The HTTP client wrapper: pending requests *)

Section PendingRequests.
Import JsString Http.
Context {value : Type} `{Json value}.

(** The key comes from the config alone. *)
Lemma generateRequestKey_config (c1 c2 : RequestConfig value) :
  url c1 = url c2 → method c1 = method c2 →
  params c1 = params c2 → data c1 = data c2 →
  generateRequestKey c1 = generateRequestKey c2.
Proof. unfold generateRequestKey. by intros -> -> -> ->. Qed.

(** [addPendingRequest] leaves the key of the config as it was. *)
Lemma addPendingRequest_key (this : Request) (c : RequestConfig value) :
  generateRequestKey (snd (addPendingRequest this c)) = generateRequestKey c.
Proof. unfold addPendingRequest. by destruct (cancelToken c). Qed.

(** The URL passed to [get] never reaches the key: [requestConfig] is
    [{ ...config, params }], and the URL travels beside it. *)
Lemma get_key (this : Request) (u : string) (ps : option value)
    (config : option (RequestConfig value)) :
  generateRequestKey (sentConfig (snd (get this u ps config)))
  = join "&" [url (default emptyConfig config); method (default emptyConfig config);
              ps ≫= JSON_stringify; data (default emptyConfig config) ≫= JSON_stringify].
Proof.
  unfold get.
  destruct (addPendingRequest this _) as [this' c'] eqn:Hadd. cbn [snd sentConfig].
  change c' with (snd (this', c')). rewrite <- Hadd.
  by rewrite addPendingRequest_key.
Qed.

(** Neither the URL nor the body passed to [post] reaches it. *)
Lemma post_key (this : Request) (u : string) (d : option value)
    (config : option (RequestConfig value)) :
  generateRequestKey (sentConfig (snd (post this u d config)))
  = generateRequestKey (default emptyConfig config).
Proof.
  unfold post.
  destruct (addPendingRequest this _) as [this' c'] eqn:Hadd. cbn [snd sentConfig].
  change c' with (snd (this', c')). rewrite <- Hadd.
  by rewrite addPendingRequest_key.
Qed.

End PendingRequests.

(** C3 at two requests that differ in their URL.  [get("/friends")] and
    [get("/articles")], in flight together, are sent to different URLs but
    are tracked under the one key ["&&&"]: the map holds a single entry,
    that of the second request, and it is gone as soon as the first
    request settles. *)
Theorem C3_distinct_urls_share_one_entry :
  let '(r1, d1) := Http.get (H := Samples.jsonText) Http.newRequest "/friends" None None in
  let '(r2, d2) := Http.get (H := Samples.jsonText) r1 "/articles" None None in
  Http.sentUrl d1 = "/api/friends"
  ∧ Http.sentUrl d2 = "/api/articles"
  ∧ Http.generateRequestKey (H := Samples.jsonText) (Http.sentConfig d1) = "&&&"
  ∧ Http.generateRequestKey (H := Samples.jsonText) (Http.sentConfig d2) = "&&&"
  ∧ Http.pendingRequests r2 = {[ "&&&" := 1%nat ]}
  ∧ Http.pendingRequests (Http.settle (H := Samples.jsonText) r2 d1) = ∅.
Proof. vm_compute. repeat split. Qed.

(** ** The HTTP client wrapper: retry *)

Section ClientRetry.
Import JsString Http.
Context {value : Type}.
Variable wire : nat → Wire value.

(** A cancellation is passed on at once. *)
Lemma onRejected_cancel n message config :
  onRejected wire n (Cancel message) config
  = ([], RejectedAxios (Cancel message), config).
Proof. reflexivity. Qed.

(** Without a positive retry count the error is passed on at once. *)
Lemma onRejected_no_retry n error (c : RequestConfig value) :
  (retry c = None ∨ ∃ r, retry c = Some r ∧ r ≤ 0) →
  onRejected wire n error (Some c) = ([], RejectedAxios error, Some c).
Proof.
  intros Hr. unfold onRejected. destruct (isCancel error); [done|].
  destruct Hr as [->|(r & -> & Hle)]; [done|].
  destruct (0 <? r) eqn:Hpos; [lia|]. by rewrite andb_false_r.
Qed.

(** With a positive retry count one request follows after the delay,
    through the default instance: its outcome is final whatever the
    count that is left. *)
Lemma onRejected_retry n error (c : RequestConfig value) r :
  isCancel error = false → retry c = Some r → 0 < r →
  ∃ c',
    retry c' = Some (r - 1)
    ∧ onRejected wire n error (Some c)
      = ([Wait (match retryDelay c with
                | Some d => if d =? 0 then 1000 else d
                | None => 1000
                end); Send (S n)],
         match wire (S n) with
         | Answered a => ResolvedRaw a
         | Failed e => RejectedAxios e
         end,
         Some c').
Proof.
  intros Hc Hr Hpos. unfold onRejected. rewrite Hc, Hr.
  assert (negb (r =? 0) && (0 <? r) = true) as ->.
  { apply andb_true_iff. split; [apply negb_true_iff|]; lia. }
  eexists. split; [|reflexivity]. reflexivity.
Qed.

(** However large the retry count, a request is retried at most
    once. *)
Lemma service_retries_at_most_once (c : RequestConfig value) :
  (retries (fst (fst (service wire c))) ≤ 1)%nat.
Proof.
  unfold service, onRejected, axios, retries.
  destruct (wire 0%nat) as [a|e]; [simpl; lia|].
  destruct (isCancel e); [simpl; lia|].
  destruct (retry c) as [r|]; [|simpl; lia].
  destruct (negb (r =? 0) && (0 <? r)); simpl; lia.
Qed.

End ClientRetry.

(** C6 at a request with [retry: 2] on a network where every request
    fails: the request is retried once, after 1000 ms, and the promise
    rejects with one retry still left in the config. *)
Theorem C6_retry_count_two_retries_once :
  Http.service Samples.deadWire Samples.retryTwice
  = ([Http.Send 0; Http.Wait 1000; Http.Send 1],
     Http.RejectedAxios Http.NoResponse,
     Some (Http.mkConfig None None None None None (Some 1) None))
  ∧ Http.retries (fst (fst (Http.service Samples.deadWire Samples.retryTwice))) = 1%nat.
Proof. split; reflexivity. Qed.

(** ** Response and error normalisation *)

Section Envelope.
Import JsString Api.
Context {T : Type}.



Lemma responseStatus_range (s s' : Z) :
  responseStatus s = Some s' → 200 ≤ s' ≤ 599 ∧ s' ∉ [204; 205; 304].
Proof.
  unfold responseStatus.
  destruct (Z.ltb_spec (s mod 65536) 200), (Z.ltb_spec 599 (s mod 65536)); try done.
  cbn [orb].
  destruct (Z.eqb_spec (s mod 65536) 204), (Z.eqb_spec (s mod 65536) 205),
    (Z.eqb_spec (s mod 65536) 304); try done.
  intros [= <-]. split; [lia|]. rewrite !not_elem_of_cons. repeat split; try done.
  apply not_elem_of_nil.
Qed.



(** C4.  Every error a member of [ApiErrors] constructs has its
    business code equal to its HTTP status code, one of 400, 401, 403,
    404, 409, 429 and 500; and [errorResponse] turns it into a response
    whose HTTP status is the error's [statusCode] and whose envelope
    carries the error's [code], whatever its other arguments. *)
Theorem C4_ApiErrors_round_trip (k : ApiErrorKind) (message : option string)
    (now : Z) (statusCode code : option Z) :
  Api.code (ApiErrors k message) = Api.statusCode (ApiErrors k message)
  ∧ Api.statusCode (ApiErrors k message) ∈ [400; 401; 403; 404; 409; 429; 500]
  ∧ ∃ r, errorResponse (T := T) now (OfApiError (ApiErrors k message)) statusCode code
         = Some r
         ∧ status r = Api.statusCode (ApiErrors k message)
         ∧ env_code (body r) = Api.code (ApiErrors k message).
Proof.
  split; [by destruct k|]. split.
  - destruct k; cbn; set_solver.
  - destruct k; by eexists.
Qed.








End Envelope.





(** ** Document conversion *)

Section Documents.
Import JsString Api.
Context {value : Type} `{MongoValue value}.

Lemma idString_present (v : value) :
  nullish v = false → idString (Some v) = toString v.
Proof.
  intros Hv. unfold idString, or_string. rewrite Hv.
  by destruct (String.eqb_spec (toString v) "").
Qed.

Lemma idString_absent : idString (None : option value) = "".
Proof. reflexivity. Qed.

(** C9.  [toFrontend] changes the [_id] field only: it becomes the
    string representation of the old [_id], or the empty string when the
    document had none, and every other field is kept.  [toMongo] removes
    [_id] and keeps every other field.  Hence [toMongo (toFrontend doc)]
    is [doc] without [_id].  [toFrontendList] maps [toFrontend] over a
    list and yields the empty list for [null]. *)
Theorem C9_document_conversion :
  (∀ doc : gmap string value,
      ∃ front, toFrontend (Some doc) = Some front
        ∧ (∀ v, doc !! "_id" = Some v → nullish v = false →
                front !! "_id" = Some (ofString (toString v)))
        ∧ (doc !! "_id" = None → front !! "_id" = Some (ofString ""))
        ∧ (∀ k, k ≠ "_id" → front !! k = doc !! k))
  ∧ (∀ data : gmap string value,
      ∃ m, toMongo (Some data) = Some m
        ∧ m !! "_id" = None
        ∧ (∀ k, k ≠ "_id" → m !! k = data !! k))
  ∧ (∀ doc : gmap string value,
      toMongo (toFrontend (Some doc)) = Some (delete "_id" doc))
  ∧ toFrontendList (None : option (list (option (gmap string value)))) = []
  ∧ (∀ docs : list (option (gmap string value)),
      toFrontendList (Some docs) = map toFrontend docs).
Proof.
  split; [|split; [|split; [|split]]].
  - intros doc. eexists. split; [reflexivity|]. split; [|split].
    + intros v Hv Hn. rewrite lookup_insert_eq, Hv. by rewrite idString_present.
    + intros Hv. by rewrite lookup_insert_eq, Hv.
    + intros k Hk. rewrite lookup_insert_ne by done. by apply lookup_delete_ne.
  - intros data. eexists. split; [reflexivity|]. split.
    + apply lookup_delete_eq.
    + intros k Hk. by apply lookup_delete_ne.
  - intros doc. cbn [toFrontend toMongo]. f_equal.
    by rewrite delete_insert_eq, delete_delete_eq.
  - reflexivity.
  - reflexivity.
Qed.

End Documents.

(** The theorem at the document [{ _id: ObjectId("65f0c0ffee"), name:
    "Ann" }]. *)
Lemma C9_document_conversion_witness :
  ∃ front,
    Api.toFrontend (H := Samples.bson) (Some Samples.ann) = Some front
    ∧ front !! "_id" = Some (Samples.Str "65f0c0ffee")
    ∧ front !! "name" = Some (Samples.Str "Ann").
Proof.
  destruct (C9_document_conversion (H := Samples.bson)) as (Hfront & _).
  destruct (Hfront Samples.ann) as (front & Heq & Hid & _ & Hrest).
  exists front. split; [exact Heq|]. split.
  - exact (Hid (Samples.ObjectId "65f0c0ffee") eq_refl eq_refl).
  - rewrite (Hrest "name"); [reflexivity | discriminate].
Defined.

(* ===================================================================== *)
(** * Part III: further properties of the code *)
(* ===================================================================== *)

(** ** The HTTP client wrapper: the table of pending requests *)

Section PendingTable.
Import JsString Http.
Context {value : Type} `{Json value}.

Lemma removePendingRequest_pending (this : Request) (c : RequestConfig value) :
  pendingRequests (removePendingRequest this c)
  = delete (generateRequestKey c) (pendingRequests this).
Proof.
  unfold removePendingRequest.
  destruct (pendingRequests this !! generateRequestKey c) eqn:Hk; [done|].
  by rewrite delete_id.
Qed.

Lemma addPendingRequest_untracked (this : Request) (c : RequestConfig value) token :
  cancelToken c = Some token → addPendingRequest this c = (this, c).
Proof. unfold addPendingRequest. by intros ->. Qed.

Lemma addPendingRequest_tracked (this : Request) (c : RequestConfig value) :
  cancelToken c = None →
  addPendingRequest this c
  = (mkRequest (<[generateRequestKey c := nextSource this]> (pendingRequests this))
               (cancelled this) (S (nextSource this)),
     mkConfig (url c) (method c) (params c) (data c) (Some (nextSource this))
              (retry c) (retryDelay c)).
Proof. unfold addPendingRequest. by intros ->. Qed.

(** The sources in the table stay below [nextSource] under each of the
    four operations, and so do the cancelled ones.  Hence the token
    [addPendingRequest] issues is new: it is not cancelled, and no other
    key of the table holds it. *)
Theorem issued_sources_are_fresh (this : Request) (c : RequestConfig value) :
  issued this →
  issued (fst (addPendingRequest this c))
  ∧ issued (removePendingRequest this c)
  ∧ issued (cancelRequest this c)
  ∧ issued (cancelAllRequests this)
  ∧ (cancelToken c = None →
     cancelToken (snd (addPendingRequest this c)) = Some (nextSource this)
     ∧ (nextSource this ∉ cancelled (fst (addPendingRequest this c)))
     ∧ (∀ k, k ≠ generateRequestKey c →
             pendingRequests (fst (addPendingRequest this c)) !! k
             ≠ Some (nextSource this))).
Proof.
  intros [Hpending Hcancelled]. repeat split.
  - unfold addPendingRequest. destruct (cancelToken c); [by apply Hpending|].
    cbn. intros k s. rewrite lookup_insert. case_decide.
    + intros [= <-]. lia.
    + intros Hs%Hpending. lia.
  - unfold addPendingRequest. destruct (cancelToken c); [by apply Hcancelled|].
    cbn. intros s Hs%Hcancelled. lia.
  - unfold removePendingRequest.
    destruct (pendingRequests this !! generateRequestKey c); [|by apply Hpending].
    cbn. intros k s [_ Hk]%lookup_delete_Some. by apply (Hpending k).
  - unfold removePendingRequest.
    by destruct (pendingRequests this !! generateRequestKey c).
  - unfold cancelRequest.
    destruct (pendingRequests this !! generateRequestKey c); [|by apply Hpending].
    cbn. intros k s [_ Hk]%lookup_delete_Some. by apply (Hpending k).
  - unfold cancelRequest.
    destruct (pendingRequests this !! generateRequestKey c) as [source|] eqn:Hc;
      [|by apply Hcancelled].
    cbn. intros s [Hs| ->%elem_of_singleton]%elem_of_union.
    + by apply Hcancelled.
    + by apply (Hpending _ _ Hc).
  - cbn. intros k s. by rewrite lookup_empty.
  - cbn. intros s [Hs|Hs]%elem_of_union; [by apply Hcancelled|].
    apply elem_of_list_to_set, list_elem_of_fmap in Hs as ([k s'] & -> & Hks).
    apply elem_of_map_to_list in Hks. by apply (Hpending k).
  - by rewrite addPendingRequest_tracked.
  - rewrite addPendingRequest_tracked by done. cbn.
    intros Hs%Hcancelled. lia.
  - rewrite addPendingRequest_tracked by done. cbn.
    intros k Hk. rewrite lookup_insert_ne by done.
    intros Hs%Hpending. lia.
Qed.

(** [get] and [post] by the registration they make. *)
Lemma get_registers (this : Request) (u : string) (ps : option value)
    (config : option (RequestConfig value)) :
  get this u ps config
  = (fst (addPendingRequest this
            (mkConfig (url (default emptyConfig config))
               (method (default emptyConfig config)) ps
               (data (default emptyConfig config))
               (cancelToken (default emptyConfig config))
               (retry (default emptyConfig config))
               (retryDelay (default emptyConfig config)))),
     mkDispatch (processUrl u) None
       (snd (addPendingRequest this
               (mkConfig (url (default emptyConfig config))
                  (method (default emptyConfig config)) ps
                  (data (default emptyConfig config))
                  (cancelToken (default emptyConfig config))
                  (retry (default emptyConfig config))
                  (retryDelay (default emptyConfig config)))))).
Proof. unfold get. by destruct (addPendingRequest _ _). Qed.

Lemma post_registers (this : Request) (u : string) (d : option value)
    (config : option (RequestConfig value)) :
  post this u d config
  = (fst (addPendingRequest this (default emptyConfig config)),
     mkDispatch (processUrl u) d
       (snd (addPendingRequest this (default emptyConfig config)))).
Proof. unfold post. by destruct (addPendingRequest _ _). Qed.

(** Registering a request touches no entry but that of its key. *)
Lemma addPendingRequest_other_keys (this : Request) (c : RequestConfig value) :
  delete (generateRequestKey c) (pendingRequests (fst (addPendingRequest this c)))
  = delete (generateRequestKey c) (pendingRequests this).
Proof.
  unfold addPendingRequest. destruct (cancelToken c); [done|].
  cbn. by rewrite delete_insert_eq.
Qed.

Lemma removePendingRequest_state (this : Request) (c : RequestConfig value) :
  removePendingRequest this c
  = mkRequest (delete (generateRequestKey c) (pendingRequests this))
              (cancelled this) (nextSource this).
Proof.
  unfold removePendingRequest.
  destruct (pendingRequests this !! generateRequestKey c) eqn:Hk; [done|].
  rewrite delete_id by done. by destruct this.
Qed.

(** Without an entry under the key [cancelRequest] does nothing: a
    request that settled, or one that brought its own cancel token, cannot
    be cancelled through the wrapper. *)
Lemma cancelRequest_without_entry (this : Request) (c : RequestConfig value) :
  pendingRequests this !! generateRequestKey c = None →
  cancelRequest this c = this.
Proof. unfold cancelRequest. by intros ->. Qed.

(** When a call of [get] or [post] settles, the entry under the call's
    key is deleted from the table as it is at that moment ([later]: other
    calls may have come and gone since), whoever registered that entry,
    and nothing else changes: the cancelled sources and the counter of
    sources stay.  Settled before anything else happened, the table is the
    table from before the call without the entry of the call's key.  When
    a second [get] with the same params and config was made in between,
    the entry deleted is the one of that second call, which [cancelRequest]
    can then no longer cancel. *)
Theorem settle_deletes_the_key (this later : Request) (u u' : string)
    (x : option value) (config : option (RequestConfig value)) :
  settle later (snd (get this u x config))
  = mkRequest (delete (generateRequestKey (sentConfig (snd (get this u x config))))
                 (pendingRequests later))
              (cancelled later) (nextSource later)
  ∧ settle later (snd (post this u x config))
    = mkRequest (delete (generateRequestKey (sentConfig (snd (post this u x config))))
                   (pendingRequests later))
                (cancelled later) (nextSource later)
  ∧ pendingRequests (settle (fst (get this u x config)) (snd (get this u x config)))
    = delete (generateRequestKey (sentConfig (snd (get this u x config))))
             (pendingRequests this)
  ∧ pendingRequests (settle (fst (post this u x config)) (snd (post this u x config)))
    = delete (generateRequestKey (sentConfig (snd (post this u x config))))
             (pendingRequests this)
  ∧ pendingRequests
      (settle (fst (get (fst (get this u x config)) u' x config))
              (snd (get this u x config)))
    !! generateRequestKey (sentConfig (snd (get (fst (get this u x config)) u' x config)))
    = None
  ∧ cancelRequest
      (settle (fst (get (fst (get this u x config)) u' x config))
              (snd (get this u x config)))
      (sentConfig (snd (get (fst (get this u x config)) u' x config)))
    = settle (fst (get (fst (get this u x config)) u' x config))
             (snd (get this u x config)).
Proof.
  assert (pendingRequests
            (settle (fst (get (fst (get this u x config)) u' x config))
                    (snd (get this u x config)))
          !! generateRequestKey
               (sentConfig (snd (get (fst (get this u x config)) u' x config)))
          = None) as Hgone.
  { unfold settle. rewrite removePendingRequest_state. cbn [pendingRequests].
    rewrite !get_key. apply lookup_delete_eq. }
  unfold settle. rewrite !removePendingRequest_state.
  split; [done|]. split; [done|]. split; [|split; [|split]].
  - cbn [pendingRequests]. rewrite get_registers. cbn [fst snd sentConfig].
    rewrite addPendingRequest_key. apply addPendingRequest_other_keys.
  - cbn [pendingRequests]. rewrite post_registers. cbn [fst snd sentConfig].
    rewrite addPendingRequest_key. apply addPendingRequest_other_keys.
  - revert Hgone. unfold settle. by rewrite removePendingRequest_state.
  - apply cancelRequest_without_entry.
    revert Hgone. unfold settle. by rewrite removePendingRequest_state.
Qed.

(** [cancelRequest] cancels the source recorded under the key of the
    request at that moment ([later]), removes that entry and touches no
    other key; with no entry under the key it does nothing.  For a request
    registered by [addPendingRequest] and cancelled before anything else
    happened, that source is the token the request carries.  Once another
    request has been registered under the same key, [cancelRequest] for
    the first cancels the token of the second, and the token the first
    carries stays uncancelled. *)
Theorem cancelRequest_cancels_the_registered_source (this : Request)
    (c c' : RequestConfig value) :
  cancelToken c = None →
  (∀ later s, pendingRequests later !! generateRequestKey c = Some s →
     cancelRequest later (snd (addPendingRequest this c))
     = mkRequest (delete (generateRequestKey c) (pendingRequests later))
                 (cancelled later ∪ {[s]}) (nextSource later))
  ∧ (∀ later, pendingRequests later !! generateRequestKey c = None →
     cancelRequest later (snd (addPendingRequest this c)) = later)
  ∧ cancelToken (snd (addPendingRequest this c)) = Some (nextSource this)
  ∧ cancelRequest (fst (addPendingRequest this c)) (snd (addPendingRequest this c))
    = mkRequest (delete (generateRequestKey c) (pendingRequests this))
                (cancelled this ∪ {[nextSource this]}) (S (nextSource this))
  ∧ (cancelToken c' = None → generateRequestKey c' = generateRequestKey c →
     issued this →
     cancelToken (snd (addPendingRequest (fst (addPendingRequest this c)) c'))
     = Some (S (nextSource this))
     ∧ cancelled (cancelRequest (fst (addPendingRequest (fst (addPendingRequest this c)) c'))
                                (snd (addPendingRequest this c)))
       = cancelled this ∪ {[S (nextSource this)]}
     ∧ nextSource this
       ∉ cancelled (cancelRequest
                      (fst (addPendingRequest (fst (addPendingRequest this c)) c'))
                      (snd (addPendingRequest this c)))).
Proof.
  intros Hc.
  assert (∀ later, cancelRequest later (snd (addPendingRequest this c))
                   = cancelRequest later c) as Hsame.
  { intros later. unfold cancelRequest. by rewrite addPendingRequest_key. }
  split; [|split; [|split; [|split]]].
  - intros later s Hs. rewrite Hsame. unfold cancelRequest. by rewrite Hs.
  - intros later Hs. rewrite Hsame. by apply cancelRequest_without_entry.
  - by rewrite addPendingRequest_tracked.
  - rewrite Hsame, (addPendingRequest_tracked this c Hc). cbn [fst].
    unfold cancelRequest. cbn [pendingRequests cancelled nextSource].
    rewrite lookup_insert_eq. by rewrite delete_insert_eq.
  - intros Hc' Hkey [_ Hcancelled]. rewrite !Hsame.
    rewrite (addPendingRequest_tracked this c Hc). cbn [fst].
    rewrite addPendingRequest_tracked by done.
    cbn [fst snd cancelToken pendingRequests cancelled nextSource].
    split; [done|]. unfold cancelRequest. cbn [pendingRequests cancelled nextSource].
    rewrite Hkey, lookup_insert_eq. cbn [cancelled]. split; [done|].
    intros [Hs|Hs%elem_of_singleton]%elem_of_union; [|lia].
    apply Hcancelled in Hs. lia.
Qed.

(** [cancelAllRequests] empties the table and cancels exactly the
    sources that were pending, beside those cancelled before. *)
Theorem cancelAllRequests_cancels_the_pending (this : Request) :
  pendingRequests (cancelAllRequests this) = ∅
  ∧ nextSource (cancelAllRequests this) = nextSource this
  ∧ ∀ s, s ∈ cancelled (cancelAllRequests this)
         ↔ s ∈ cancelled this ∨ ∃ k, pendingRequests this !! k = Some s.
Proof.
  split; [done|]. split; [done|]. intros s. cbn.
  rewrite elem_of_union, elem_of_list_to_set, list_elem_of_fmap. split.
  - intros [Hs|([k s'] & -> & Hks)]; [by left|].
    right. exists k. by apply elem_of_map_to_list.
  - intros [Hs|[k Hk]]; [by left|].
    right. exists (k, s). split; [done|]. by apply elem_of_map_to_list.
Qed.

End PendingTable.

(** The invariant at the fresh instance, registering a request. *)
Lemma issued_sources_are_fresh_witness :
  Http.issued (fst (Http.addPendingRequest (H := Samples.jsonText) Http.newRequest
                      Samples.retryTwice)).
Proof.
  refine (proj1 (issued_sources_are_fresh (H := Samples.jsonText) Http.newRequest
                   Samples.retryTwice _)).
  split.
  - intros k s Hk. cbn in Hk. by rewrite lookup_empty in Hk.
  - intros s Hs. cbn in Hs. by apply elem_of_empty in Hs.
Defined.

(** The theorem at two requests registered under one key at a fresh
    instance: [cancelRequest] for the first cancels source 1, the token of
    the second, and not source 0. *)
Lemma cancelRequest_cancels_the_registered_source_witness :
  Http.cancelled
    (Http.cancelRequest (H := Samples.jsonText)
       (fst (Http.addPendingRequest (H := Samples.jsonText)
               (fst (Http.addPendingRequest (H := Samples.jsonText) Http.newRequest
                       Samples.retryTwice))
               Samples.retryTwice))
       (snd (Http.addPendingRequest (H := Samples.jsonText) Http.newRequest
               Samples.retryTwice)))
  = ∅ ∪ {[1%nat]}.
Proof.
  destruct (cancelRequest_cancels_the_registered_source (H := Samples.jsonText)
              Http.newRequest Samples.retryTwice Samples.retryTwice eq_refl)
    as (_ & _ & _ & _ & Hsecond).
  refine (proj1 (proj2 (Hsecond eq_refl eq_refl _))).
  split.
  - intros k s Hk. cbn in Hk. by rewrite lookup_empty in Hk.
  - intros s Hs. cbn in Hs. by apply elem_of_empty in Hs.
Defined.

(** ** The HTTP client wrapper: what a request through [service] sends *)

Section ServiceTrace.
Import JsString Http.
Context {value : Type}.
Variable wire : nat → Wire value.

(** A request through [service] is sent a second time exactly when
    the first attempt failed, the failure is no cancellation, and the
    config carries a positive retry count; the second request then follows
    a wait of [retryDelay] (1000 ms when that is missing or 0).  Otherwise
    the request goes out once: a cancellation is passed on as it is, and a
    response that reaches the fulfilled handler with a status other than
    200 is rejected without a retry, whatever the retry count. *)
Theorem service_retries_after_a_failure (c : RequestConfig value) :
  ((1 < sends (fst (fst (service wire c))))%nat
   ↔ ∃ e r, wire 0%nat = Failed e ∧ isCancel e = false
            ∧ retry c = Some r ∧ 0 < r)
  ∧ ((∃ e r, wire 0%nat = Failed e ∧ isCancel e = false
             ∧ retry c = Some r ∧ 0 < r) →
     ∃ rest, fst (fst (service wire c))
             = [Send 0%nat;
                Wait (match retryDelay c with
                      | Some d => if d =? 0 then 1000 else d
                      | None => 1000
                      end);
                Send 1%nat] ++ rest)
  ∧ (¬ (∃ e r, wire 0%nat = Failed e ∧ isCancel e = false
               ∧ retry c = Some r ∧ 0 < r) →
     fst (fst (service wire c)) = [Send 0%nat])
  ∧ (∀ message, wire 0%nat = Failed (Cancel message) →
       service wire c = ([Send 0%nat], RejectedAxios (Cancel message), Some c))
  ∧ (∀ r, wire 0%nat = Answered r → status r ≠ 200 →
          service wire c
          = ([Send 0%nat],
             RejectedError (or_string (res_message (response_data r)) "请求失败"),
             Some c)).
Proof.
  assert (fst (fst (service wire c))
          = if match wire 0%nat with
               | Failed e =>
                   negb (isCancel e)
                   && match retry c with
                      | Some r => negb (r =? 0) && (0 <? r)
                      | None => false
                      end
               | Answered _ => false
               end
            then [Send 0%nat;
                  Wait (match retryDelay c with
                        | Some d => if d =? 0 then 1000 else d
                        | None => 1000
                        end);
                  Send 1%nat]
            else [Send 0%nat]) as Htrace.
  { unfold service, onRejected, axios.
    destruct (wire 0%nat) as [a|e]; [done|].
    destruct (isCancel e); [done|].
    destruct (retry c) as [r|]; [|done].
    by destruct (negb (r =? 0) && (0 <? r)). }
  assert (match wire 0%nat with
          | Failed e =>
              negb (isCancel e)
              && match retry c with
                 | Some r => negb (r =? 0) && (0 <? r)
                 | None => false
                 end
          | Answered _ => false
          end = true
          ↔ ∃ e r, wire 0%nat = Failed e ∧ isCancel e = false
                   ∧ retry c = Some r ∧ 0 < r) as Hcond.
  { destruct (wire 0%nat) as [a|e].
    { split; [done | by intros (? & ? & ? & _)]. }
    destruct (isCancel e) eqn:Hc; cbn.
    { split; [done | intros (e' & r & [= <-] & Hc' & _); congruence]. }
    destruct (retry c) as [r|] eqn:Hr.
    2:{ split; [done | by intros (? & ? & _ & _ & ? & _)]. }
    rewrite andb_true_iff, negb_true_iff, Z.eqb_neq, Z.ltb_lt. split.
    - intros [_ Hpos]. by exists e, r.
    - intros (e' & r' & _ & _ & [= <-] & Hr'). lia. }
  rewrite Htrace. repeat split.
  - destruct (match wire 0%nat with Failed _ => _ | Answered _ => _ end) eqn:Hb;
      [intros _; by apply Hcond | cbn; lia].
  - intros Hc%Hcond. rewrite Hc. cbn. lia.
  - intros Hc%Hcond. rewrite Hc. by exists [].
  - intros Hn. destruct (match wire 0%nat with Failed _ => _ | Answered _ => _ end) eqn:Hb;
      [by destruct Hn; apply Hcond | done].
  - intros message Hw. unfold service. by rewrite Hw.
  - intros r Hw Hs. unfold service, onFulfilled. rewrite Hw.
    destruct (status r =? 200) eqn:Heq; [lia | done].
Qed.

End ServiceTrace.

(** The theorem at a request with [retry: 2] on a network that is
    down. *)
Lemma service_retries_after_a_failure_witness :
  ∃ rest, fst (fst (Http.service Samples.deadWire Samples.retryTwice))
          = [Http.Send 0; Http.Wait 1000; Http.Send 1] ++ rest.
Proof.
  apply (proj1 (proj2 (service_retries_after_a_failure Samples.deadWire
                         Samples.retryTwice))).
  exists Http.NoResponse, 2. repeat split; reflexivity.
Defined.

(** ** The upload pipeline: what [POST] answers and how long it waits *)

Section UploadAnswers.
Import JsString Upload.

(** The delays of an upload started at attempt [a] are the back-offs of
    consecutive attempts from [a] on, and there is none for an attempt at
    or beyond the limit. *)
Lemma uploadToAliyun_delays env put filename (a : nat) :
  ∃ j, (a + j ≤ maxRetries ∨ j = 0)%nat
       ∧ fst (uploadToAliyun env put filename a) = backoff <$> seq a j.
Proof.
  remember (maxRetries - a)%nat as d eqn:Hd. revert a Hd.
  induction d as [|d IH]; intros a Hd.
  - exists 0%nat. split; [by right|].
    destruct (put a) as [err|] eqn:Hp.
    + by rewrite (uploadToAliyun_give_up _ _ _ _ err Hp) by lia.
    + by rewrite (uploadToAliyun_success _ _ _ _ Hp).
  - destruct (put a) as [err|] eqn:Hp.
    + rewrite (uploadToAliyun_again _ _ _ _ err Hp) by lia.
      destruct (IH (a + 1)%nat) as (j & Hj & Heq); [lia|].
      exists (S j). split; [lia|]. cbn. rewrite Heq.
      by replace (a + 1)%nat with (S a) by lia.
    + exists 0%nat. split; [by right|]. by rewrite (uploadToAliyun_success _ _ _ _ Hp).
Qed.

Lemma uploadWithRetry_delays put filename (a : nat) :
  ∃ j, (a + j ≤ maxRetries ∨ j = 0)%nat
       ∧ fst (OssUpload.uploadWithRetry put filename a) = backoff <$> seq a j.
Proof.
  remember (maxRetries - a)%nat as d eqn:Hd. revert a Hd.
  induction d as [|d IH]; intros a Hd.
  - exists 0%nat. split; [by right|].
    destruct (put a) as [err|] eqn:Hp.
    + by rewrite (uploadWithRetry_give_up _ _ _ err Hp) by lia.
    + by rewrite (uploadWithRetry_success _ _ _ Hp).
  - destruct (put a) as [err|] eqn:Hp.
    + rewrite (uploadWithRetry_again _ _ _ err Hp) by lia.
      destruct (IH (a + 1)%nat) as (j & Hj & Heq); [lia|].
      exists (S j). split; [lia|]. cbn. rewrite Heq.
      by replace (a + 1)%nat with (S a) by lia.
    + exists 0%nat. split; [by right|]. by rewrite (uploadWithRetry_success _ _ _ Hp).
Qed.

Lemma uploadToQiniu_delays env put filename (a : nat) :
  ∃ j, (a + j ≤ maxRetries ∨ j = 0)%nat
       ∧ fst (uploadToQiniu env put filename a) = backoff <$> seq a j.
Proof.
  destruct (getQiniuToken env) as [[]|e] eqn:Hconf.
  2:{ exists 0%nat. split; [by right|].
      by rewrite (uploadToQiniu_unconfigured _ _ _ _ e Hconf). }
  remember (maxRetries - a)%nat as d eqn:Hd. revert a Hd.
  induction d as [|d IH]; intros a Hd.
  - exists 0%nat. split; [by right|].
    destruct (put a) as [err|sc] eqn:Hp.
    + by rewrite (uploadToQiniu_give_up _ Hconf _ _ _ err Hp) by lia.
    + rewrite (uploadToQiniu_status _ Hconf _ _ _ sc Hp). by destruct (sc =? 200).
  - destruct (put a) as [err|sc] eqn:Hp.
    + rewrite (uploadToQiniu_again _ Hconf _ _ _ err Hp) by lia.
      destruct (IH (a + 1)%nat) as (j & Hj & Heq); [lia|].
      exists (S j). split; [lia|]. cbn. rewrite Heq.
      by replace (a + 1)%nat with (S a) by lia.
    + exists 0%nat. split; [by right|].
      rewrite (uploadToQiniu_status _ Hconf _ _ _ sc Hp). by destruct (sc =? 200).
Qed.

(** From attempt 1 that leaves nothing, 1000 ms, or 1000 ms and
    2000 ms. *)
Lemma delays_from_first_attempt (l : list Z) :
  (∃ j, (1 + j ≤ maxRetries ∨ j = 0)%nat ∧ l = backoff <$> seq 1 j) →
  l `prefix_of` [1000; 2000].
Proof.
  intros (j & Hj & ->). unfold maxRetries in Hj.
  assert (j = 0 ∨ j = 1 ∨ j = 2)%nat as [->|[->| ->]] by lia.
  - by exists [1000; 2000].
  - by exists [2000].
  - by exists [].
Qed.

(** An upload that resolves resolves to the public URL of the key. *)
Lemma uploadToAliyun_resolves env put filename (a : nat) u :
  snd (uploadToAliyun env put filename a) = Ok u → u = aliyunUrl env filename.
Proof.
  remember (maxRetries - a)%nat as d eqn:Hd. revert a Hd.
  induction d as [|d IH]; intros a Hd; destruct (put a) as [err|] eqn:Hp.
  - by rewrite (uploadToAliyun_give_up _ _ _ _ err Hp) by lia.
  - rewrite (uploadToAliyun_success _ _ _ _ Hp). by intros [= <-].
  - rewrite (uploadToAliyun_again _ _ _ _ err Hp) by lia. apply IH. lia.
  - rewrite (uploadToAliyun_success _ _ _ _ Hp). by intros [= <-].
Qed.

Lemma uploadToQiniu_resolves env put filename (a : nat) u :
  snd (uploadToQiniu env put filename a) = Ok u → u = qiniuUrl env filename.
Proof.
  destruct (getQiniuToken env) as [[]|e] eqn:Hconf.
  2:{ by rewrite (uploadToQiniu_unconfigured _ _ _ _ e Hconf). }
  remember (maxRetries - a)%nat as d eqn:Hd. revert a Hd.
  induction d as [|d IH]; intros a Hd; destruct (put a) as [err|sc] eqn:Hp.
  - by rewrite (uploadToQiniu_give_up _ Hconf _ _ _ err Hp) by lia.
  - rewrite (uploadToQiniu_status _ Hconf _ _ _ sc Hp).
    destruct (sc =? 200); [by intros [= <-] | done].
  - rewrite (uploadToQiniu_again _ Hconf _ _ _ err Hp) by lia. apply IH. lia.
  - rewrite (uploadToQiniu_status _ Hconf _ _ _ sc Hp).
    destruct (sc =? 200); [by intros [= <-] | done].
Qed.

Lemma app_nonempty_l (a b : string) : a ≠ "" → a +:+ b ≠ "".
Proof. by destruct a. Qed.

Lemma app_nonempty_r (a b : string) : b ≠ "" → a +:+ b ≠ "".
Proof. destruct a; [done|]. by rewrite app_cons. Qed.

Lemma aliyunUrl_nonempty env filename : aliyunUrl env filename ≠ "".
Proof. unfold aliyunUrl. by apply app_nonempty_l. Qed.

Lemma qiniuUrl_nonempty env filename : qiniuUrl env filename ≠ "".
Proof. unfold qiniuUrl. apply app_nonempty_r. by apply app_nonempty_l. Qed.

(** An upload started within the limit rejects with what the last
    attempt threw. *)
Lemma uploadToAliyun_rejects env put filename (a : nat) e :
  (a ≤ maxRetries)%nat →
  snd (uploadToAliyun env put filename a) = Throw e → put maxRetries = Some e.
Proof.
  remember (maxRetries - a)%nat as d eqn:Hd. revert a Hd.
  induction d as [|d IH]; intros a Hd Ha; destruct (put a) as [err|] eqn:Hp.
  - rewrite (uploadToAliyun_give_up _ _ _ _ err Hp) by lia.
    intros [= <-]. by replace maxRetries with a by lia.
  - by rewrite (uploadToAliyun_success _ _ _ _ Hp).
  - rewrite (uploadToAliyun_again _ _ _ _ err Hp) by lia. apply IH; lia.
  - by rewrite (uploadToAliyun_success _ _ _ _ Hp).
Qed.

Lemma uploadWithRetry_rejects put filename (a : nat) e :
  (a ≤ maxRetries)%nat →
  snd (OssUpload.uploadWithRetry put filename a) = Throw e → put maxRetries = Some e.
Proof.
  remember (maxRetries - a)%nat as d eqn:Hd. revert a Hd.
  induction d as [|d IH]; intros a Hd Ha; destruct (put a) as [err|] eqn:Hp.
  - rewrite (uploadWithRetry_give_up _ _ _ err Hp) by lia.
    intros [= <-]. by replace maxRetries with a by lia.
  - by rewrite (uploadWithRetry_success _ _ _ Hp).
  - rewrite (uploadWithRetry_again _ _ _ err Hp) by lia. apply IH; lia.
  - by rewrite (uploadWithRetry_success _ _ _ Hp).
Qed.

(** For Qiniu the error is the [respErr] of the last attempt, or an
    [Error] the upload function made itself. *)
Lemma uploadToQiniu_rejects env put filename (a : nat) e :
  (a ≤ maxRetries)%nat →
  snd (uploadToQiniu env put filename a) = Throw e →
  put maxRetries = RespErr e ∨ ∃ message, e = JsError message.
Proof.
  destruct (getQiniuToken env) as [[]|e'] eqn:Hconf.
  2:{ rewrite (uploadToQiniu_unconfigured _ _ _ _ e' Hconf). intros _ [= <-].
      right. revert Hconf. unfold getQiniuToken. destruct (_ || _); [|done].
      intros [= <-]. by eexists. }
  remember (maxRetries - a)%nat as d eqn:Hd. revert a Hd.
  induction d as [|d IH]; intros a Hd Ha; destruct (put a) as [err|sc] eqn:Hp.
  - rewrite (uploadToQiniu_give_up _ Hconf _ _ _ err Hp) by lia.
    intros [= <-]. left. by replace maxRetries with a by lia.
  - rewrite (uploadToQiniu_status _ Hconf _ _ _ sc Hp).
    destruct (sc =? 200); [done|]. intros [= <-]. right. by eexists.
  - rewrite (uploadToQiniu_again _ Hconf _ _ _ err Hp) by lia. apply IH; lia.
  - rewrite (uploadToQiniu_status _ Hconf _ _ _ sc Hp).
    destruct (sc =? 200); [done|]. intros [= <-]. right. by eexists.
Qed.

(** The [catch] clause answers 500 with an error text, unless it caught
    [null] or [undefined]. *)
Lemma onError_answers delays e :
  fst (onError delays e) = delays
  ∧ match snd (onError delays e) with
    | Some r => status r = 500 ∧ ∃ text, body r = ErrorBody text
    | None => e = Nullish
    end.
Proof. split; [done|]. destruct e; cbn; eauto. Qed.

(** What the upload proper answers. *)
Lemma store_answers env w filename :
  fst (store env w filename) `prefix_of` [1000; 2000]
  ∧ match snd (store env w filename) with
    | Some r =>
        (status r = 200 ∧ ∃ u, body r = UrlBody u ∧ u ≠ "")
        ∨ (status r = 500 ∧ ∃ text, body r = ErrorBody text)
    | None =>
        newOSS w (getOSSConfig env) = Some Nullish
        ∨ aliyun w maxRetries = Some Nullish
        ∨ qiniu w maxRetries = RespErr Nullish
    end.
Proof.
  unfold store. destruct (String.eqb _ _).
  - pose proof (uploadToQiniu_delays env (qiniu w) filename 1) as Hd.
    pose proof (uploadToQiniu_resolves env (qiniu w) filename 1) as Hu.
    pose proof (uploadToQiniu_rejects env (qiniu w) filename 1) as He.
    destruct (uploadToQiniu env (qiniu w) filename 1) as [delays [u|e]]; cbn [fst snd] in *.
    + split; [by apply delays_from_first_attempt|]. left. split; [done|].
      exists u. split; [done|]. rewrite (Hu u eq_refl). apply qiniuUrl_nonempty.
    + destruct (onError_answers delays e) as [-> Ha].
      split; [by apply delays_from_first_attempt|].
      destruct (snd (onError delays e)); [by right|]. subst e.
      destruct (He Nullish) as [Hq|[? ?]]; [unfold maxRetries; lia|done|auto|done].
  - unfold Upload.createOSSClient.
    destruct (0 <? length _)%nat.
    { split; [by exists [1000; 2000]|]. right. split; [done|]. by eexists. }
    destruct (newOSS w (getOSSConfig env)) as [e|] eqn:Hnew.
    { destruct (onError_answers [] e) as [-> Ha].
      split; [by exists [1000; 2000]|].
      destruct (snd (onError [] e)); [by right|]. subst e. by left. }
    pose proof (uploadToAliyun_delays env (aliyun w) filename 1) as Hd.
    pose proof (uploadToAliyun_resolves env (aliyun w) filename 1) as Hu.
    pose proof (uploadToAliyun_rejects env (aliyun w) filename 1) as He.
    destruct (uploadToAliyun env (aliyun w) filename 1) as [delays [u|e]]; cbn [fst snd] in *.
    + split; [by apply delays_from_first_attempt|]. left. split; [done|].
      exists u. split; [done|]. rewrite (Hu u eq_refl). apply aliyunUrl_nonempty.
    + destruct (onError_answers delays e) as [-> Ha].
      split; [by apply delays_from_first_attempt|].
      destruct (snd (onError delays e)); [by right|]. subst e.
      right; left. apply He; [unfold maxRetries; lia | done].
Qed.

Section WithRuntime.
Context `{JsRuntime}.

(** An answer with status 400 that follows no wait. *)
Ltac refuse_at_once :=
  split; [by exists [1000; 2000]|]; right; split; [by left | by eexists].

(** The answers and the waits of the current route. *)
Lemma POST_answers (env : Env) (w : World) (formData : FormData) :
  fst (POST env w formData) `prefix_of` [1000; 2000]
  ∧ match snd (POST env w formData) with
    | Some r =>
        (status r = 200 ∧ ∃ u, body r = UrlBody u ∧ u ≠ "")
        ∨ ((status r = 400 ∨ status r = 500) ∧ ∃ text, body r = ErrorBody text)
    | None =>
        newOSS w (getOSSConfig env) = Some Nullish
        ∨ aliyun w maxRetries = Some Nullish
        ∨ qiniu w maxRetries = RespErr Nullish
    end.
Proof.
  unfold POST. destruct (file formData) as [f|]; [|refuse_at_once].
  destruct (negb (isAllowedType f)); [refuse_at_once|].
  unfold storeAccepted. destruct (negb (truthy (extension f))); [refuse_at_once|].
  destruct (store_answers env w
              (storageKey f (or_string (directory formData) "articles") (uuidv4 w)
                 (default "" (extension f)))) as [Hd Ha].
  split; [done|].
  destruct (snd (store env w _)) as [r|]; [|done].
  destruct Ha as [Hok|[Hs He]]; [by left|]. right. split; [by right | done].
Qed.

(** Whatever the form, the configuration and the providers do, [POST]
    waits for nothing, for 1000 ms, or for 1000 ms and then 2000 ms (never
    more than 3 seconds in all), and then it answers 200 with a non-empty
    URL, or 400 or 500 with an error text, or it throws and answers
    nothing.  It throws only where its [catch] clause received [null] or
    [undefined]: from the constructor of the OSS client, or as the failure
    of the third attempt of the provider in use.  The older route does the
    same. *)
Theorem POST_answers_and_waits (env : Env) (w : World) (formData : FormData) :
  (fst (POST env w formData) `prefix_of` [1000; 2000]
   ∧ match snd (POST env w formData) with
     | Some r =>
         (status r = 200 ∧ ∃ u, body r = UrlBody u ∧ u ≠ "")
         ∨ ((status r = 400 ∨ status r = 500) ∧ ∃ text, body r = ErrorBody text)
     | None =>
         newOSS w (getOSSConfig env) = Some Nullish
         ∨ aliyun w maxRetries = Some Nullish
         ∨ qiniu w maxRetries = RespErr Nullish
     end)
  ∧ (fst (OssUpload.POST env w formData) `prefix_of` [1000; 2000]
     ∧ match snd (OssUpload.POST env w formData) with
       | Some r =>
           (status r = 200 ∧ ∃ u, body r = UrlBody u ∧ u ≠ "")
           ∨ ((status r = 400 ∨ status r = 500) ∧ ∃ text, body r = ErrorBody text)
       | None =>
           newOSS w (getOSSConfig env) = Some Nullish
           ∨ aliyun w maxRetries = Some Nullish
       end).
Proof.
  split; [apply POST_answers|].
  - unfold OssUpload.POST, OssUpload.createOSSClient.
    destruct (0 <? length _)%nat.
    { split; [by exists [1000; 2000]|]. right. split; [by right | by eexists]. }
    destruct (newOSS w (getOSSConfig env)) as [e|] eqn:Hnew.
    { destruct (onError_answers [] e) as [-> Ha].
      split; [by exists [1000; 2000]|].
      destruct (snd (onError [] e)); [|subst e; by left].
      destruct Ha as [Hs Ht]. right. split; [by right | done]. }
    destruct (file formData) as [f|]; [|refuse_at_once].
    destruct (negb (isAllowedType f)); [refuse_at_once|].
    unfold OssUpload.storeAccepted.
    destruct (negb (truthy (extension f))); [refuse_at_once|].
    cbv zeta.
    set (filename := storageKey f _ _ _).
    pose proof (uploadWithRetry_delays (aliyun w) filename 1) as Hd.
    pose proof (uploadWithRetry_rejects (aliyun w) filename 1) as He.
    destruct (OssUpload.uploadWithRetry (aliyun w) filename 1) as [delays [u|e]];
      cbn [fst snd] in *.
    + split; [by apply delays_from_first_attempt|]. left. split; [done|].
      eexists. split; [done|]. apply aliyunUrl_nonempty.
    + destruct (onError_answers delays e) as [-> Ha].
      split; [by apply delays_from_first_attempt|].
      destruct (snd (onError delays e)).
      * destruct Ha as [Hs Ht]. right. split; [by right | done].
      * subst e. right. apply He; [unfold maxRetries; lia | done].
Qed.

(** [POST] consults one provider only: with [STORAGE_PROVIDER] equal
    to [qiniu] its answer does not depend on what Alibaba OSS would do,
    and with any other value (none, the empty string, [Qiniu]) it does not
    depend on what Qiniu would do. *)
Theorem POST_consults_one_provider (env : Env) (w w' : World) (formData : FormData) :
  uuidv4 w = uuidv4 w' →
  (if String.eqb (STORAGE_PROVIDER env) "qiniu"
   then qiniu w = qiniu w'
   else newOSS w = newOSS w' ∧ aliyun w = aliyun w') →
  POST env w formData = POST env w' formData.
Proof.
  intros Hu Hp. unfold POST, storeAccepted, store. rewrite Hu.
  destruct (String.eqb (STORAGE_PROVIDER env) "qiniu"); [by rewrite Hp|].
  destruct Hp as [-> ->]. done.
Qed.

(** Once the OSS client can be made and Qiniu is not selected, the two
    routes answer every form alike, after the same waits. *)
Theorem routes_agree (env : Env) (w : World) (formData : FormData) :
  String.eqb (STORAGE_PROVIDER env) "qiniu" = false →
  Upload.createOSSClient env (newOSS w) = Ok () →
  OssUpload.POST env w formData = POST env w formData.
Proof.
  intros Hp Hc.
  assert (OssUpload.createOSSClient env (newOSS w) = Ok ()) as Hc'.
  { revert Hc. unfold Upload.createOSSClient, OssUpload.createOSSClient.
    by destruct (0 <? length _)%nat. }
  unfold OssUpload.POST, POST. rewrite Hc'.
  destruct (file formData) as [f|]; [|done].
  destruct (negb (isAllowedType f)); [done|].
  unfold OssUpload.storeAccepted, storeAccepted.
  destruct (negb (truthy (extension f))); [done|].
  unfold store. rewrite Hp, Hc. cbv zeta.
  set (filename := storageKey f _ _ _).
  assert (∀ a, uploadToAliyun env (aliyun w) filename a
               = (fst (OssUpload.uploadWithRetry (aliyun w) filename a),
                  match snd (OssUpload.uploadWithRetry (aliyun w) filename a) with
                  | Ok _ => Ok (aliyunUrl env filename)
                  | Throw e => Throw e
                  end)) as Hsame.
  { intros a. remember (maxRetries - a)%nat as d eqn:Hd. revert a Hd.
    induction d as [|d IH]; intros a Hd; destruct (aliyun w a) as [err|] eqn:Hput.
    - rewrite (uploadToAliyun_give_up _ _ _ _ err Hput) by lia.
      by rewrite (uploadWithRetry_give_up _ _ _ err Hput) by lia.
    - by rewrite (uploadToAliyun_success _ _ _ _ Hput), (uploadWithRetry_success _ _ _ Hput).
    - rewrite (uploadToAliyun_again _ _ _ _ err Hput) by lia.
      rewrite (uploadWithRetry_again _ _ _ err Hput) by lia.
      rewrite (IH (a + 1)%nat) by lia. done.
    - by rewrite (uploadToAliyun_success _ _ _ _ Hput), (uploadWithRetry_success _ _ _ Hput). }
  rewrite Hsame. cbn [fst snd].
  by destruct (snd (OssUpload.uploadWithRetry (aliyun w) filename 1)).
Qed.

End WithRuntime.

End UploadAnswers.

(** The theorem at two worlds that differ in what Qiniu does, while
    Alibaba OSS is the provider. *)
Lemma POST_consults_one_provider_witness :
  Upload.POST (H := Samples.asciiRuntime) Samples.ossEnv Samples.calmWorld
    (Upload.mkFormData (Some (Upload.mkFile "Cat.PNG" "image/png")) None)
  = Upload.POST (H := Samples.asciiRuntime) Samples.ossEnv
      (Upload.mkWorld (Upload.uuidv4 Samples.calmWorld)
         (Upload.newOSS Samples.calmWorld)
         (Upload.aliyun Samples.calmWorld) Samples.busyOnce)
      (Upload.mkFormData (Some (Upload.mkFile "Cat.PNG" "image/png")) None).
Proof.
  apply (POST_consults_one_provider (H := Samples.asciiRuntime)); [reflexivity|].
  split; reflexivity.
Defined.

(** The theorem at a complete Alibaba OSS configuration. *)
Lemma routes_agree_witness :
  OssUpload.POST (H := Samples.asciiRuntime) Samples.ossEnv Samples.calmWorld
    (Upload.mkFormData (Some (Upload.mkFile "Cat.PNG" "image/png")) None)
  = Upload.POST (H := Samples.asciiRuntime) Samples.ossEnv Samples.calmWorld
      (Upload.mkFormData (Some (Upload.mkFile "Cat.PNG" "image/png")) None).
Proof.
  apply (routes_agree (H := Samples.asciiRuntime)); reflexivity.
Defined.

(** ** The upload pipeline: configuration *)

Section UploadConfiguration.
Import JsString Upload.



Lemma substring_prefix (d t : string) :
  String.substring 0 (String.length d) (d +:+ t) = d.
Proof.
  induction d as [|c d IH]; [by destruct t|]. rewrite app_cons. cbn. by rewrite IH.
Qed.

Lemma strip_trailing_slash_added (d : string) : strip_trailing_slash (d +:+ "/") = d.
Proof.
  unfold strip_trailing_slash.
  assert (endsWith (d +:+ "/") "/" = true) as -> by (apply endsWith_has_suffix; by exists d).
  rewrite length_app_string. cbn [String.length].
  replace (String.length d + 1 - 1)%nat with (String.length d) by lia.
  apply substring_prefix.
Qed.

Lemma strip_trailing_slash_none (d : string) :
  ¬ has_suffix "/" d → strip_trailing_slash d = d.
Proof.
  intros Hno. unfold strip_trailing_slash.
  destruct (endsWith d "/") eqn:He; [|done]. by apply endsWith_has_suffix in He.
Qed.

(** A slash at the end of [QINIU_DOMAIN] makes no difference to the
    public URL.  The token does not depend on [QINIU_DOMAIN], so an upload
    succeeds without it, and then resolves to a URL that starts with
    [undefined/]. *)
Theorem qiniu_domain_in_the_url (env : Env) (d filename : string) :
  (env !! "QINIU_DOMAIN" = Some (d +:+ "/") →
     qiniuUrl env filename = d +:+ "/" +:+ filename)
  ∧ (env !! "QINIU_DOMAIN" = Some d → ¬ has_suffix "/" d →
     qiniuUrl env filename = d +:+ "/" +:+ filename)
  ∧ getQiniuToken (<["QINIU_DOMAIN" := d]> env) = getQiniuToken env
  ∧ getQiniuToken (delete "QINIU_DOMAIN" env) = getQiniuToken env
  ∧ (env !! "QINIU_DOMAIN" = None → getQiniuToken env = Ok () →
     ∀ put, put 1%nat = RespInfo 200 →
       uploadToQiniu env put filename 1 = ([], Ok ("undefined/" +:+ filename))).
Proof.
  split; [|split; [|split; [|split]]].
  - intros Hd. unfold qiniuUrl, getQiniuConfig. cbn [domain]. rewrite Hd. cbn.
    by rewrite strip_trailing_slash_added.
  - intros Hd Hno. unfold qiniuUrl, getQiniuConfig. cbn [domain]. rewrite Hd. cbn.
    by rewrite strip_trailing_slash_none.
  - unfold getQiniuToken, getQiniuConfig. cbn [accessKey secretKey qbucket].
    by rewrite !lookup_insert_ne.
  - unfold getQiniuToken, getQiniuConfig. cbn [accessKey secretKey qbucket].
    by rewrite !lookup_delete_ne.
  - intros Hd Hconf put Hput.
    rewrite (uploadToQiniu_status env Hconf put filename 1 200 Hput). cbn.
    unfold qiniuUrl, getQiniuConfig. cbn [domain]. by rewrite Hd.
Qed.

End UploadConfiguration.

(** The theorem at [https://cdn.example.com/], the domain of the sample
    configuration. *)
Lemma qiniu_domain_in_the_url_witness :
  Upload.qiniuUrl Samples.qiniuEnv "images/a/u.png"
  = "https://cdn.example.com" +:+ "/" +:+ "images/a/u.png".
Proof.
  exact (proj1 (qiniu_domain_in_the_url Samples.qiniuEnv "https://cdn.example.com"
                  "images/a/u.png") eq_refl).
Defined.

(** ** Pagination and parameter validation *)

Section Validation.
Import JsString Api.

(** For a positive page size and a non-negative count (integers below
    2^53, where the division is exact) [totalPages] is the least number of
    pages that hold [total] items, and [hasMore] is true exactly when items
    remain after page [page], that is when [page * limit < total].  With
    page size 0 and items present [totalPages] is infinite and [hasMore] is
    true on every page. *)
Theorem createPagination_pages (page limit total : Z) :
  (0 < limit < 2 ^ 53 → 0 ≤ total < 2 ^ 53 → - 2 ^ 53 < page < 2 ^ 53 →
     ∃ n, totalPages (createPagination page limit total) = Finite n
          ∧ (n - 1) * limit < total ≤ n * limit
          ∧ (hasMore (createPagination page limit total) = true
             ↔ page * limit < total))
  ∧ (limit = 0 → 0 < total →
     totalPages (createPagination page limit total) = PosInfinity
     ∧ hasMore (createPagination page limit total) = true).
Proof.
  split.
  - intros Hl Ht Hp. unfold createPagination, ceilQuotient. cbn.
    destruct (limit =? 0) eqn:Hz; [lia|].
    exists (- (- total / limit)). split; [done|].
    pose proof (Z.div_mod (- total) limit ltac:(lia)) as Hdm.
    pose proof (Z.mod_pos_bound (- total) limit ltac:(lia)) as Hmod.
    split; [nia|]. cbn. rewrite Z.ltb_lt. split; nia.
  - intros -> Ht. unfold createPagination, ceilQuotient. cbn.
    destruct (total =? 0) eqn:Hz; [lia|].
    by destruct (0 <? total) eqn:Hpos; [|lia].
Qed.

Lemma isMissing_false (p : option Param) :
  isMissing p = false ↔ ∃ v, p = Some v ∧ v ≠ ParamNull ∧ v ≠ ParamString "".
Proof.
  split.
  - destruct p as [[|s|]|]; cbn; try done.
    + intros Hs. exists (ParamString s). repeat split; [done|].
      intros [= ->]. done.
    + intros _. by exists ParamOther.
  - intros (v & -> & Hn & He). destruct v as [|s|]; cbn; try done.
    destruct (String.eqb_spec s ""); [by subst | done].
Qed.

(** Each piece joined is part of the whole. *)
Lemma join_contains (sep x : string) (l : list string) :
  x ∈ l → contains x (join sep (Some <$> l)).
Proof.
  induction l as [|y l IH]; [by intros ?%elem_of_nil|].
  intros [->|Hx]%elem_of_cons.
  - destruct l as [|z l]; cbn.
    + exists "", "". by rewrite app_empty_r.
    + by exists "", (sep +:+ join sep (Some <$> z :: l)).
  - destruct (IH Hx) as (a & b & Heq). destruct l as [|z l]; [by apply elem_of_nil in Hx|].
    change (join sep (Some <$> y :: z :: l))
      with (y +:+ sep +:+ join sep (Some <$> z :: l)).
    rewrite Heq. exists (y +:+ sep +:+ a), b.
    by rewrite !app_assoc_string.
Qed.

(** [validateRequiredParams] returns exactly when every required field
    holds a value other than [null] and the empty string.  Otherwise it
    throws an [ApiError] with code and status 400 whose message names every
    field that is missing, and under [withErrorHandler] that error becomes
    a response with status 400 carrying the message. *)
Theorem validateRequiredParams_checks_every_field (params : gmap string Param)
    (requiredFields : list string) :
  (validateRequiredParams params requiredFields = None
   ↔ ∀ field, field ∈ requiredFields →
        ∃ v, params !! field = Some v ∧ v ≠ ParamNull ∧ v ≠ ParamString "")
  ∧ (∀ e, validateRequiredParams params requiredFields = Some e →
       Api.code e = 400 ∧ Api.statusCode e = 400
       ∧ has_prefix "缺少必要参数: " (Api.message e)
       ∧ (∀ field, field ∈ requiredFields → isMissing (params !! field) = true →
                   contains field (Api.message e))
       ∧ (∀ T (convert : NextResponse T → NextResponse T) now,
            ∃ r, withErrorHandler convert now (Threw (ThrownApiError e)) = Some r
                 ∧ status r = 400
                 ∧ error (body r) = Some (Api.message e))).
Proof.
  unfold validateRequiredParams.
  set (missing := List.filter _ requiredFields).
  assert (∀ field, field ∈ missing
                   ↔ field ∈ requiredFields ∧ isMissing (params !! field) = true)
    as Hmissing.
  { intros field. unfold missing. rewrite !list_elem_of_In. apply filter_In. }
  split.
  - destruct missing as [|m rest] eqn:Hm; cbn.
    + split; [|done]. intros _ field Hf. apply isMissing_false.
      destruct (isMissing (params !! field)) eqn:Hmiss; [|done].
      pose proof (proj2 (Hmissing field) (conj Hf Hmiss)) as Habs.
      by apply elem_of_nil in Habs.
    + split; [done|]. intros Hall.
      destruct (proj1 (Hmissing m)) as [Hin Hmiss]; [left|].
      apply Hall, isMissing_false in Hin. congruence.
  - intros e. destruct missing as [|m rest] eqn:Hm; cbn; [done|].
    intros [= <-]. cbn. split; [done|]. split; [done|]. split; [by eexists|].
    split; [|intros T convert now; by eexists].
    intros field Hf Hmiss.
    destruct (join_contains ", " field (m :: rest)) as (a & b & Heq).
    { by apply Hmissing. }
    exists ("缺少必要参数: " +:+ a), b.
    change (match Some <$> rest with
            | [] => m
            | _ :: _ => m +:+ ", " +:+ join ", " (Some <$> rest)
            end)
      with (join ", " (Some <$> m :: rest)).
    rewrite Heq. by rewrite app_assoc_string.
Qed.

Lemma digit_value (c : ascii) :
  isDigit c = true → 0 ≤ Z.of_nat (nat_of_ascii c) - 48 ≤ 9.
Proof. unfold isDigit. rewrite andb_true_iff, !Nat.leb_le. lia. Qed.

Lemma decimalFrom_shift (s : string) (acc : Z) :
  decimalFrom acc s = acc * 10 ^ Z.of_nat (String.length s) + decimalFrom 0 s.
Proof.
  revert acc. induction s as [|c s IH]; intros acc; cbn [decimalFrom String.length].
  - cbn. lia.
  - rewrite (IH (10 * acc + _)), (IH (10 * 0 + _)).
    rewrite Nat2Z.inj_succ, Z.pow_succ_r by lia. lia.
Qed.

Lemma decimalFrom_bound (s : string) :
  allDigits s = true → 0 ≤ decimalFrom 0 s < 10 ^ Z.of_nat (String.length s).
Proof.
  induction s as [|c s IH]; cbn [allDigits decimalFrom String.length]; [cbn; lia|].
  intros [Hc Hs]%andb_true_iff. specialize (IH Hs). apply digit_value in Hc.
  rewrite decimalFrom_shift, Nat2Z.inj_succ, Z.pow_succ_r by lia. nia.
Qed.

(** [validatePhone] accepts exactly the strings of 11 decimal digits
    that write a number from 13000000000 to 19999999999. *)
Theorem validatePhone_accepts_mobile_numbers (phone : string) :
  validatePhone phone = true
  ↔ String.length phone = 11%nat ∧ allDigits phone = true
    ∧ 13000000000 ≤ decimal phone ≤ 19999999999.
Proof.
  unfold decimal. split.
  - destruct phone as [|c1 [|c2 rest]]; cbn [validatePhone]; try done.
    rewrite !andb_true_iff, Nat.eqb_eq, Ascii.eqb_eq.
    intros [[[-> H2] Hlen] Hrest].
    assert (isDigit c2 = true) as Hd2.
    { revert H2. unfold isDigit3to9, isDigit. rewrite !andb_true_iff, !Nat.leb_le. lia. }
    pose proof (decimalFrom_bound rest Hrest) as Hb. rewrite Hlen in Hb.
    split; [cbn; lia|]. split; [cbn; by rewrite Hd2, Hrest|].
    cbn [decimalFrom]. rewrite decimalFrom_shift, Hlen.
    revert H2. unfold isDigit3to9. rewrite andb_true_iff, !Nat.leb_le.
    change (nat_of_ascii "1") with 49%nat.
    change (10 ^ Z.of_nat 9) with 1000000000 in *. lia.
  - destruct phone as [|c1 [|c2 rest]]; cbn [String.length allDigits];
      try (intros [? _]; lia).
    rewrite !andb_true_iff. intros (Hlen & (H1 & H2 & Hrest) & Hrange).
    assert (String.length rest = 9%nat) as Hlen' by lia.
    pose proof (decimalFrom_bound rest Hrest) as Hb. rewrite Hlen' in Hb.
    cbn [decimalFrom] in Hrange. rewrite decimalFrom_shift, Hlen' in Hrange.
    change (10 ^ Z.of_nat 9) with 1000000000 in *.
    apply digit_value in H1 as Hv1. apply digit_value in H2 as Hv2.
    assert (nat_of_ascii c1 = 49%nat) as Hc1 by lia.
    assert (51 ≤ nat_of_ascii c2 ≤ 57)%nat as Hc2 by lia.
    cbn [validatePhone]. rewrite !andb_true_iff, Nat.eqb_eq, Ascii.eqb_eq.
    repeat split; try done.
    + rewrite <- (ascii_nat_embedding c1), Hc1. reflexivity.
    + unfold isDigit3to9. rewrite andb_true_iff, !Nat.leb_le. lia.
Qed.

End Validation.

(** The theorem at page 2 of 25 items, 10 to a page: three pages, and
    one more to come. *)
Lemma createPagination_pages_witness :
  ∃ n, Api.totalPages (Api.createPagination 2 10 25) = Api.Finite n
       ∧ (n - 1) * 10 < 25 ≤ n * 10
       ∧ (Api.hasMore (Api.createPagination 2 10 25) = true ↔ 2 * 10 < 25).
Proof.
  apply (proj1 (createPagination_pages 2 10 25)); lia.
Defined.

(** The theorem at a form that lacks its [url]. *)
Lemma validateRequiredParams_checks_every_field_witness :
  Api.code (Api.ApiErrors Api.MISSING_PARAMS (Some "缺少必要参数: url")) = 400
  ∧ JsString.contains "url"
      (Api.message (Api.ApiErrors Api.MISSING_PARAMS (Some "缺少必要参数: url"))).
Proof.
  assert (Api.validateRequiredParams ∅ ["url"]
          = Some (Api.ApiErrors Api.MISSING_PARAMS (Some "缺少必要参数: url")))
    as Hthrows by (vm_compute; reflexivity).
  destruct (proj2 (validateRequiredParams_checks_every_field ∅ ["url"])
              (Api.ApiErrors Api.MISSING_PARAMS (Some "缺少必要参数: url")) Hthrows)
    as (Hcode & _ & _ & Hnames & _).
  split; [exact Hcode|]. apply Hnames; [by left | reflexivity].
Defined.

(** ** The friends page: avatars *)

Section Avatars.
Import JsString Upload Friends.

(** Pieces of a split string. *)
Lemma split_app (sep : ascii) (a x : string) :
  split sep (a +:+ String sep x) = split sep a ++ split sep x.
Proof.
  induction a as [|c a IH].
  - rewrite app_empty_l. cbn. by rewrite Ascii.eqb_refl.
  - rewrite app_cons. cbn. destruct (Ascii.eqb c sep); [by rewrite IH|].
    rewrite IH. pose proof (split_nonempty sep a) as Hne.
    by destruct (split sep a).
Qed.

Lemma split_pieces_without_sep (sep : ascii) (s x : string) :
  x ∈ split sep s → ∀ l r, x ≠ l +:+ String sep r.
Proof.
  revert x. induction s as [|c s IH]; intros x; cbn.
  - intros ->%list_elem_of_singleton l r. by destruct l.
  - destruct (Ascii.eqb c sep) eqn:Hc.
    + intros [->|Hx]%elem_of_cons; [intros l r; by destruct l | by apply IH].
    + pose proof (split_nonempty sep s) as Hne.
      destruct (split sep s) as [|h t]; [done|].
      intros [->|Hx]%elem_of_cons.
      * intros [|d l] r.
        -- rewrite app_empty_l. intros [= -> _]. by rewrite Ascii.eqb_refl in Hc.
        -- rewrite app_cons. intros [= _ Hh]. by apply (IH h (list_elem_of_here _ _) l r).
      * apply IH. by right.
Qed.

Lemma pop_split_last_piece (sep : ascii) (a x : string) :
  (∀ l r, x ≠ l +:+ String sep r) →
  pop (split sep (a +:+ String sep x)) = Some x.
Proof.
  intros Hx. unfold pop. by rewrite split_app, last_app, (split_no_sep sep x Hx).
Qed.

(** The extension [uploadImageFromUrl] gives its file is never empty
    and holds no dot. *)
Lemma fileExt_plain (imageUrl : string) :
  fileExt imageUrl ≠ "" ∧ ∀ l r, fileExt imageUrl ≠ l +:+ String "." r.
Proof.
  unfold fileExt, or_string, pop. cbv zeta.
  destruct (last (split "." _)) as [x|] eqn:Hlast.
  - destruct (String.eqb_spec x "") as [->|Hne].
    + split; [done|]. intros [|c1 [|c2 [|c3 l]]] r; cbn; try done.
      * by destruct l.
    + split; [done|].
      apply (split_pieces_without_sep "." (default "" (last (split "/" imageUrl))) x).
      by apply last_Some_elem_of.
  - split; [done|]. intros [|c1 [|c2 [|c3 l]]] r; cbn; try done.
    by destruct l.
Qed.

Lemma contains_aliyuncs env filename :
  contains ".aliyuncs.com/" (aliyunUrl env filename).
Proof.
  unfold aliyunUrl. cbv zeta.
  exists ("https://" +:+ template (bucket (getOSSConfig env)) +:+ "."
          +:+ template (region (getOSSConfig env))), filename.
  by rewrite !app_assoc_string.
Qed.

(** A URL that the Alibaba OSS upload returned is recognised as stored:
    when a friend is added or edited without a new file, such an avatar is
    kept and not transferred again. *)
Theorem stored_avatar_is_kept (publicDomain : option string) (env : Env)
    (filename : string) (isApproved : bool) :
  isOssUrl publicDomain (aliyunUrl env filename) = true
  ∧ addAvatarStep publicDomain None (aliyunUrl env filename)
    = Keep (aliyunUrl env filename)
  ∧ editAvatarStep publicDomain None (aliyunUrl env filename) isApproved
    = Keep (aliyunUrl env filename).
Proof.
  assert (isOssUrl publicDomain (aliyunUrl env filename) = true) as Hoss.
  { unfold isOssUrl.
    by rewrite (proj2 (includes_contains _ _) (contains_aliyuncs env filename)). }
  unfold addAvatarStep, editAvatarStep. rewrite Hoss. cbn.
  by rewrite !andb_false_r.
Qed.

(** [uploadImageFromUrl] returns a URL exactly when the download was
    answered with success and the upload of the file made of it was
    answered with success and a non-empty URL; every failure on the way
    comes out as the one error [Failed to transfer image to OSS]. *)
Theorem uploadImageFromUrl_outcomes (imageUrl : string)
    (download : Result (bool * string)) (upload : File → Result UploadReply) :
  (∀ u, uploadImageFromUrl imageUrl download upload = Ok u
        ↔ ∃ blobType, download = Ok (true, blobType)
            ∧ upload (avatarFile imageUrl blobType)
              = Ok (mkUploadReply true (Some u))
            ∧ u ≠ "")
  ∧ ((∃ u, uploadImageFromUrl imageUrl download upload = Ok u)
     ∨ uploadImageFromUrl imageUrl download upload
       = Throw (JsError "Failed to transfer image to OSS")).
Proof.
  unfold uploadImageFromUrl, uploadImage. split.
  - intros u. split.
    + destruct download as [[[] blobType]|e]; cbn; try done.
      destruct (upload (avatarFile imageUrl blobType)) as [[[] [x|]]|e] eqn:Hup;
        cbn; try done.
      destruct (String.eqb_spec x "") as [->|Hne]; cbn; [done|].
      intros [= <-]. by exists blobType.
    + intros (blobType & -> & Hup & Hne). cbn. rewrite Hup. cbn.
      by destruct (String.eqb_spec u "").
  - destruct download as [[[] blobType]|e]; cbn; try by right.
    destruct (upload (avatarFile imageUrl blobType)) as [[[] [x|]]|e]; cbn;
      try by right.
    destruct (String.eqb x ""); cbn; [by right | left; by eexists].
Qed.

Section WithRuntime.
Context `{JsRuntime}.

(** Against the upload route [uploadImage] returns the URL of the
    stored file when the route answered 200 and throws [Failed to upload
    image] otherwise (also when the handler threw and the framework
    answered in its place); it never finds the URL missing. *)
Theorem uploadImage_against_the_route (env : Env) (w : World) (formData : FormData) :
  uploadImage (Ok (answerOf (snd (POST env w formData))))
  = match snd (POST env w formData) with
    | Some r =>
        match body r with
        | UrlBody u => Ok u
        | ErrorBody _ => Throw (JsError "Failed to upload image")
        end
    | None => Throw (JsError "Failed to upload image")
    end
  ∧ uploadImage (Ok (answerOf (snd (POST env w formData))))
    ≠ Throw (JsError "No URL returned from upload").
Proof.
  destruct (POST_answers env w formData) as [_ Hanswer].
  unfold uploadImage, answerOf, replyOf.
  destruct (snd (POST env w formData)) as [r|]; [|by split].
  destruct Hanswer as [[Hs (u & Hb & Hne)]|[Hs (e & Hb)]]; rewrite Hb.
  - rewrite Hs. cbn. destruct (String.eqb_spec u ""); [done|]. by split.
  - destruct Hs as [Hs|Hs]; rewrite Hs; by split.
Qed.

(** The route reads off the file of [uploadImageFromUrl] the extension
    the page gave it, lower-cased; provided lower-casing leaves no
    non-empty string empty, the route does not turn the file away for its
    extension, and stores an image under
    [images/friendsAvatar/<uuid>.<extension>]. *)
Theorem avatar_file_passes_the_extension_check (imageUrl blobType : string)
    (env : Env) (w : World) :
  (∀ x, toLowerCase x = "" → x = "") →
  extension (avatarFile imageUrl blobType) = Some (toLowerCase (fileExt imageUrl))
  ∧ snd (POST env w (uploadForm (avatarFile imageUrl blobType)))
    ≠ Some (mkResponse 400 (ErrorBody "Invalid file extension"))
  ∧ (has_prefix "image/" blobType →
     POST env w (uploadForm (avatarFile imageUrl blobType))
     = store env w ("images/friendsAvatar/" +:+ uuidv4 w +:+ "."
                    +:+ toLowerCase (fileExt imageUrl))).
Proof.
  intros Hlower. destruct (fileExt_plain imageUrl) as [Hne Hplain].
  assert (extension (avatarFile imageUrl blobType)
          = Some (toLowerCase (fileExt imageUrl))) as Hext.
  { unfold extension, avatarFile. cbn [name].
    change ("avatar." +:+ fileExt imageUrl)
      with ("avatar" +:+ String "." (fileExt imageUrl)).
    by rewrite (pop_split_last_piece "." "avatar" _ Hplain). }
  assert (toLowerCase (fileExt imageUrl) ≠ "") as Hne' by (intros ?%Hlower; done).
  split; [done|]. split.
  - unfold POST, uploadForm. cbn [file directory].
    destruct (negb (isAllowedType _)); [done|].
    rewrite (storeAccepted_key env w _ _ _ Hext Hne').
    intros Heq. by destruct (store_status env w _ _ Heq).
  - intros Himage%startsWith_has_prefix.
    unfold POST, uploadForm. cbn [file directory].
    assert (isAllowedType (avatarFile imageUrl blobType) = true) as ->.
    { unfold isAllowedType, allowedTypes, avatarFile. cbn [existsb type name].
      rewrite Himage. by rewrite !orb_true_r. }
    cbn [negb]. rewrite (storeAccepted_key env w _ _ _ Hext Hne').
    unfold basePath, avatarFile. cbn [type]. by rewrite Himage.
Qed.

End WithRuntime.

End Avatars.

(** The theorem at an avatar taken from a GitHub URL, with the ASCII
    runtime. *)
Lemma avatar_file_passes_the_extension_check_witness :
  Upload.extension (H := Samples.asciiRuntime)
    (Friends.avatarFile "https://avatars.githubusercontent.com/u/1.PNG" "image/png")
  = Some "png".
Proof.
  refine (proj1 (avatar_file_passes_the_extension_check (H := Samples.asciiRuntime)
                   "https://avatars.githubusercontent.com/u/1.PNG" "image/png"
                   Samples.ossEnv Samples.calmWorld _)).
  intros [|c x]; [done | discriminate].
Defined.

(** ** The proxy for stored content *)

Section Proxy.
Import JsString Api ProxyContent.

(** A host is allowed exactly when its name contains one of the four
    fixed domains, or the value of [QINIU_DOMAIN_HOSTNAME] when that is set
    and not empty.  The match is by substring: the domain may stand
    anywhere in the host name.  An unset or empty variable adds nothing, so
    the empty string, which every host name contains, is never a
    domain. *)
Theorem isAllowedDomain_by_substring (env : gmap string string) (hostname : string) :
  (isAllowedDomain env hostname = true
   ↔ ∃ d, (d ∈ ["next-blog.oss-cn-beijing.aliyuncs.com"; "qiniudn.com";
                "qbox.me"; "clouddn.com"]
           ∨ (env !! "QINIU_DOMAIN_HOSTNAME" = Some d ∧ d ≠ ""))
          ∧ contains d hostname)
  ∧ "" ∉ ALLOWED_DOMAINS env.
Proof.
  assert (∀ d, d ∈ ALLOWED_DOMAINS env
               ↔ d ∈ ["next-blog.oss-cn-beijing.aliyuncs.com"; "qiniudn.com";
                      "qbox.me"; "clouddn.com"]
                 ∨ (env !! "QINIU_DOMAIN_HOSTNAME" = Some d ∧ d ≠ "")) as Hdomains.
  { intros d. unfold ALLOWED_DOMAINS. cbn [omap truthy String.eqb negb Ascii.eqb].
    cbn. destruct (env !! "QINIU_DOMAIN_HOSTNAME") as [h|] eqn:Hh; cbn.
    - destruct (String.eqb_spec h "") as [->|Hne]; cbn;
        rewrite !elem_of_cons, elem_of_nil; intuition congruence.
    - rewrite !elem_of_cons, elem_of_nil. intuition congruence. }
  split.
  - unfold isAllowedDomain. rewrite existsb_exists. split.
    + intros (d & Hd%list_elem_of_In%Hdomains & Hc%includes_contains). by exists d.
    + intros (d & Hd%Hdomains%list_elem_of_In & Hc%includes_contains). by exists d.
  - intros [Hfixed|[_ Hne]]%Hdomains; [|done].
    by repeat (apply elem_of_cons in Hfixed as [?|Hfixed]; [done|]);
      apply elem_of_nil in Hfixed.
Qed.

(** The handler requests the URL only for an allowed host.  An
    unparsable URL is answered with 400 and another host with 403, both
    without a request; a request that fails upstream is answered with 500
    and a message that gives the upstream status; and a successful one with
    200, the content, and its type, [text/plain] when upstream names
    none. *)
Theorem proxy_requests_allowed_hosts_only (env : gmap string string) (now : Z)
    (hostname : option string) (upstream : Upstream) :
  (fst (handler env now hostname upstream) = true
   ↔ ∃ h, hostname = Some h ∧ isAllowedDomain env h = true)
  ∧ (hostname = None →
     ∃ r, snd (handler env now hostname upstream) = Some (Returned r)
          ∧ Api.status r = 400 ∧ error (body r) = Some "无效的URL格式")
  ∧ (∀ h, hostname = Some h → isAllowedDomain env h = false →
     ∃ r, snd (handler env now hostname upstream) = Some (Returned r)
          ∧ Api.status r = 403 ∧ error (body r) = Some "不允许的域名")
  ∧ (∀ h f, hostname = Some h → isAllowedDomain env h = true →
            upstream = Resolved f → ok f = false →
     ∃ r, snd (handler env now hostname upstream) = Some (Returned r)
          ∧ Api.status r = 500
          ∧ error (body r)
            = Some ("获取文件失败: " +:+ pretty (ProxyContent.status f) +:+ " "
                    +:+ statusText f))
  ∧ (∀ h f, hostname = Some h → isAllowedDomain env h = true →
            upstream = Resolved f → ok f = true →
     ∃ r, snd (handler env now hostname upstream) = Some (Returned r)
          ∧ Api.status r = 200 ∧ success (body r) = true
          ∧ env_data (body r)
            = Some (mkProxyContent (text f)
                      (or_string (header_content_type f) "text/plain")))
  ∧ (∀ h e, hostname = Some h → isAllowedDomain env h = true →
            upstream = Rejected e →
     snd (handler env now hostname upstream) = Some (Threw e)).
Proof.
  unfold handler. repeat split.
  - destruct hostname as [h|]; [|done].
    destruct (isAllowedDomain env h) eqn:Ha; cbn; [|done]. intros _. by exists h.
  - intros (h & -> & ->). cbn. by destruct upstream as [f|e]; [destruct (ok f)|].
  - intros ->. by eexists.
  - intros h -> ->. by eexists.
  - intros h f -> -> -> ->. by eexists.
  - intros h f -> -> -> ->. by eexists.
  - by intros h e -> -> ->.
Qed.

End Proxy.

(** The theorem at a text file of the blog's bucket. *)
Lemma proxy_requests_allowed_hosts_only_witness :
  ∃ r, snd (ProxyContent.handler ∅ 0 (Some "next-blog.oss-cn-beijing.aliyuncs.com")
              (ProxyContent.Resolved (ProxyContent.mkFetched true 200 "OK" "# Hi" None)))
       = Some (Api.Returned r)
       ∧ Api.status r = 200 ∧ Api.success (Api.body r) = true
       ∧ Api.env_data (Api.body r)
         = Some (ProxyContent.mkProxyContent "# Hi" "text/plain").
Proof.
  destruct (proxy_requests_allowed_hosts_only ∅ 0
              (Some "next-blog.oss-cn-beijing.aliyuncs.com")
              (ProxyContent.Resolved (ProxyContent.mkFetched true 200 "OK" "# Hi" None)))
    as (_ & _ & _ & _ & Hok & _).
  apply (Hok "next-blog.oss-cn-beijing.aliyuncs.com"
             (ProxyContent.mkFetched true 200 "OK" "# Hi" None)); reflexivity.
Defined.

(** ** The database connection module *)

Section MongoModule.
Import JsString Mongo.

(** Evaluating the module throws its own error exactly when
    [MONGODB_URI] is unset or empty, and then nothing is created.
    Otherwise every client it creates connects to [MONGODB_URI]: the local
    default is never used.  The constructor of the client may refuse the
    URI; then its error leaves the module and nothing is exported. *)
Theorem load_needs_the_uri (env : gmap string string) (newClient : ClientConstructor)
    (p : Process) :
  (load env newClient p = Throws (JsError "Please add your MongoDB URI to .env.local")
   ↔ env !! "MONGODB_URI" = None ∨ env !! "MONGODB_URI" = Some "")
  ∧ (∀ p' promise, load env newClient p = Exports p' promise →
       ∃ uri, env !! "MONGODB_URI" = Some uri ∧ uri ≠ ""
              ∧ (clients p' = clients p ∨ clients p' = clients p ++ [uri]))
  ∧ (∀ e, load env newClient p = ConstructorThrows e →
       ∃ uri, env !! "MONGODB_URI" = Some uri ∧ uri ≠ "" ∧ newClient uri = Some e).
Proof.
  unfold load, truthy, or_string.
  destruct (env !! "MONGODB_URI") as [uri|] eqn:Huri; cbn.
  2:{ split; [split; [by left | done] | done]. }
  destruct (String.eqb_spec uri "") as [->|Hne]; cbn.
  { split; [split; [by right | done] | done]. }
  split; [|split].
  - split; [|by intros [|[= ->]]].
    destruct (String.eqb _ "development");
      [destruct (_mongoClientPromise p)|]; by destruct (newClient uri).
  - intros p' promise Hload. exists uri. split; [done|]. split; [done|].
    destruct (String.eqb _ "development").
    + destruct (_mongoClientPromise p); [injection Hload as <- _; auto|].
      destruct (newClient uri); [done|]. injection Hload as <- _. cbn. auto.
    + destruct (newClient uri); [done|]. injection Hload as <- _. cbn. auto.
  - intros e Hload. exists uri. split; [done|]. split; [done|].
    destruct (String.eqb _ "development").
    + destruct (_mongoClientPromise p); [done|].
      destruct (newClient uri); [by injection Hload as <- | done].
    + destruct (newClient uri); [by injection Hload as <- | done].
Qed.

(** With [MONGODB_URI] set to a URI, not empty, that the constructor of
    the client accepts: in development any number of evaluations of the
    module, starting from a fresh process, creates one client, and every
    evaluation exports the promise of that client; in any other mode each
    evaluation creates a client of its own.  With a URI the constructor
    refuses, the first evaluation throws the error of the constructor in
    either mode. *)
Theorem reload_reuses_the_connection (env : gmap string string)
    (newClient : ClientConstructor) (uri : string) (n : nat) :
  env !! "MONGODB_URI" = Some uri → uri ≠ "" →
  (newClient uri = None →
     (env !! "NODE_ENV" = Some "development" →
        reload env newClient (S n) freshProcess
        = Ok (mkProcess (Some 0%nat) [uri], replicate (S n) 0%nat))
     ∧ (env !! "NODE_ENV" ≠ Some "development" →
        reload env newClient n freshProcess
        = Ok (mkProcess None (replicate n uri), seq 0 n)))
  ∧ (∀ e, newClient uri = Some e →
       reload env newClient (S n) freshProcess = Throw e).
Proof.
  intros Huri Hne.
  assert (∀ p, load env newClient p
               = if String.eqb (default "" (env !! "NODE_ENV")) "development"
                 then match _mongoClientPromise p with
                      | None =>
                          match newClient uri with
                          | Some e => ConstructorThrows e
                          | None => Exports (mkProcess (Some (length (clients p)))
                                               (clients p ++ [uri])) (length (clients p))
                          end
                      | Some promise => Exports p promise
                      end
                 else match newClient uri with
                      | Some e => ConstructorThrows e
                      | None => Exports (mkProcess (_mongoClientPromise p)
                                           (clients p ++ [uri])) (length (clients p))
                      end) as Hload.
  { intros p. unfold load, truthy, or_string. rewrite Huri.
    by destruct (String.eqb_spec uri ""). }
  split.
  - intros Haccepts. split.
    + intros Hdev.
      assert (∀ m cs c, reload env newClient m (mkProcess (Some c) cs)
                        = Ok (mkProcess (Some c) cs, replicate m c)) as Hreuse.
      { induction m as [|m IH]; intros cs c; [done|].
        cbn [reload]. rewrite Hload, Hdev. cbn. by rewrite IH. }
      cbn [reload]. rewrite Hload, Hdev, Haccepts. cbn. by rewrite Hreuse.
    + intros Hprod.
      assert (String.eqb (default "" (env !! "NODE_ENV")) "development" = false) as Hmode.
      { destruct (String.eqb_spec (default "" (env !! "NODE_ENV")) "development")
          as [Heq|]; [|done].
        destruct (env !! "NODE_ENV"); [cbn in Heq; by subst | done]. }
      assert (∀ m cs, reload env newClient m (mkProcess None cs)
                      = Ok (mkProcess None (cs ++ replicate m uri),
                            seq (length cs) m)) as Hfresh.
      { induction m as [|m IH]; intros cs; [cbn; by rewrite app_nil_r|].
        cbn [reload]. rewrite Hload, Hmode, Haccepts. cbn. rewrite IH.
        rewrite length_app. cbn. rewrite <- app_assoc. cbn.
        by replace (length cs + 1)%nat with (S (length cs)) by lia. }
      unfold freshProcess. by rewrite (Hfresh n []).
  - intros e Hrefuses. cbn [reload]. rewrite Hload, Hrefuses. unfold freshProcess.
    cbn [_mongoClientPromise]. by destruct (String.eqb _ _).
Qed.

End MongoModule.

(** The theorem at a first evaluation in production. *)
Lemma load_needs_the_uri_witness :
  ∃ uri, (<["MONGODB_URI" := "mongodb://db:27017/blog"]> ∅ : gmap string string)
         !! "MONGODB_URI" = Some uri
         ∧ uri ≠ ""
         ∧ (Mongo.clients (Mongo.mkProcess None ["mongodb://db:27017/blog"])
            = Mongo.clients Mongo.freshProcess
            ∨ Mongo.clients (Mongo.mkProcess None ["mongodb://db:27017/blog"])
              = Mongo.clients Mongo.freshProcess ++ [uri]).
Proof.
  apply (proj1 (proj2 (load_needs_the_uri
                         (<["MONGODB_URI" := "mongodb://db:27017/blog"]> ∅)
                         (λ _, None) Mongo.freshProcess))
           (Mongo.mkProcess None ["mongodb://db:27017/blog"]) 0%nat).
  reflexivity.
Defined.

(** The theorem at three hot reloads in development, with a constructor
    that accepts the URI. *)
Lemma reload_reuses_the_connection_witness :
  Mongo.reload (<["MONGODB_URI" := "mongodb://db:27017/blog"]>
                  (<["NODE_ENV" := "development"]> ∅)) (λ _, None) 3 Mongo.freshProcess
  = Ok (Mongo.mkProcess (Some 0%nat) ["mongodb://db:27017/blog"], [0; 0; 0]%nat).
Proof.
  refine (proj1 (proj1 (reload_reuses_the_connection
                   (<["MONGODB_URI" := "mongodb://db:27017/blog"]>
                      (<["NODE_ENV" := "development"]> ∅)) (λ _, None)
                   "mongodb://db:27017/blog" 2 _ _) _) _);
    [reflexivity | discriminate | reflexivity | reflexivity].
Defined.

(** ** Document conversion, repeated *)

Section DocumentsAgain.
Import JsString Api.
Context {value : Type} `{MongoValue value}.

(** A converted document always has an [_id], and it is a string.
    When strings print as themselves and are not [null], converting a
    converted document changes nothing, so a list may pass through
    [toFrontendList] any number of times; and [toFrontendList] keeps the
    length of the list. *)
Theorem toFrontend_is_idempotent :
  (∀ s, toString (ofString s) = s) →
  (∀ s, nullish (ofString s) = false) →
  (∀ doc : gmap string value,
      ∃ front s, toFrontend (Some doc) = Some front ∧ front !! "_id" = Some (ofString s))
  ∧ (∀ doc : option (gmap string value),
      toFrontend (toFrontend doc) = toFrontend doc)
  ∧ (∀ docs : list (option (gmap string value)),
      toFrontendList (Some (toFrontendList (Some docs))) = toFrontendList (Some docs)
      ∧ length (toFrontendList (Some docs)) = length docs).
Proof.
  intros Hprint Hnull.
  assert (∀ doc : option (gmap string value),
             toFrontend (toFrontend doc) = toFrontend doc) as Hidem.
  { intros [doc|]; [|done]. cbn [toFrontend]. f_equal.
    rewrite lookup_insert_eq, delete_insert_eq, delete_delete_eq.
    f_equal. f_equal. rewrite idString_present by apply Hnull. apply Hprint. }
  split; [|split; [done|]].
  - intros doc. do 2 eexists. split; [reflexivity|]. by rewrite lookup_insert_eq.
  - intros docs. cbn [toFrontendList]. split; [|by rewrite length_fmap].
    rewrite <- list_fmap_compose. apply list_fmap_ext. intros i doc _. apply Hidem.
Qed.

End DocumentsAgain.

(** The theorem at the sample values, whose strings print as
    themselves. *)
Lemma toFrontend_is_idempotent_witness :
  Api.toFrontend (H := Samples.bson)
    (Api.toFrontend (H := Samples.bson) (Some Samples.ann))
  = Api.toFrontend (H := Samples.bson) (Some Samples.ann).
Proof.
  apply (proj1 (proj2 (toFrontend_is_idempotent (H := Samples.bson)
                         (λ s, eq_refl) (λ s, eq_refl)))).
Defined.
